(** * Self-play drivers of lc0 ([src/selfplay/game.cc]): a shallow embedding

    The development follows the source file function by function:
    [SelfPlayLimits::MakeSearchStopper], the [ValueSelfPlayGames] batch
    driver, the [SelfPlayGame] single-game driver with its resignation and
    move-acceptance policies, [SelfPlayGame::GetMoves] and
    [SelfPlayGame::WriteTrainingData].

    Numbers are modelled as the code has them: [float] is IEEE-754 binary32
    (the Standard Library's [SpecFloat] at precision 24 and maximal exponent
    128, round to nearest even), [uint32_t] and [int] are integers in [Z] with
    the conversions between them written out.  The collaborators that live
    outside this file of the repository (position history, node tree, search,
    tablebase, network computation) are taken as an interface of operations. *)

From Stdlib Require Import ZArith QArith Bool List Lia.
From Stdlib Require Import Floats.SpecFloat.
From stdpp Require Import base list.

Open Scope Z_scope.

(** ** Single-precision floating point *)

Module F32.

Definition prec : Z := 24.
Definition emax : Z := 128.

Definition float : Type := spec_float.

Definition add : float -> float -> float := SFadd prec emax.
Definition sub : float -> float -> float := SFsub prec emax.
Definition div : float -> float -> float := SFdiv prec emax.
Definition opp : float -> float := SFopp.

(** [ltb x y] is the C++ [x < y]; [leb x y] is [x <= y]; [eqb] is [==]. *)
Definition ltb : float -> float -> bool := SFltb.
Definition leb : float -> float -> bool := SFleb.
Definition eqb : float -> float -> bool := SFeqb.
Definition gtb (x y : float) : bool := ltb y x.
Definition geb (x y : float) : bool := leb y x.

(** Conversion of an integer operand to [float] (as in [eval + 1] or
    [best_m + training_data_.size()]). *)
Definition of_Z (z : Z) : float := binary_normalize prec emax z 0 false.

(** The correctly rounded quotient of two integers: the value of a decimal
    literal such as [0.96f] is [of_ratio 96 100]. *)
Definition of_ratio (p q : Z) : float := div (of_Z p) (of_Z q).

Definition zero : float := S754_zero false.
Definition one : float := of_Z 1.
Definition two : float := of_Z 2.

(** [std::numeric_limits<float>::lowest()]. *)
Definition lowest : float := SFopp (SFmax_float prec emax).

(** [std::max(a, b)] is [(a < b) ? b : a]; [std::min(a, b)] is
    [(b < a) ? b : a]. *)
Definition max (a b : float) : float := if ltb a b then b else a.
Definition min (a b : float) : float := if ltb b a then b else a.

Definition valid (x : float) : Prop := valid_binary prec emax x = true.

Definition is_nan (x : float) : bool :=
  match x with S754_nan => true | _ => false end.

(** The exact rational value of a finite float. *)
Definition to_Q (x : float) : option Q :=
  match x with
  | S754_zero _ => Some 0%Q
  | S754_finite s m e =>
      let v := (inject_Z (Z.pos m) * Qpower 2 e)%Q in
      Some (if s then Qopp v else v)
  | _ => None
  end.

End F32.

Abbreviation float := F32.float.

(** ** Game results ([chess/position.h]) *)

Inductive GameResult : Type :=
  | UNDECIDED
  | BLACK_WON
  | DRAW
  | WHITE_WON.

Definition GameResult_eqb (a b : GameResult) : bool :=
  match a, b with
  | UNDECIDED, UNDECIDED | BLACK_WON, BLACK_WON
  | DRAW, DRAW | WHITE_WON, WHITE_WON => true
  | _, _ => false
  end.

Definition is_undecided (r : GameResult) : bool := GameResult_eqb r UNDECIDED.

(** ** Training records *)

(** The value of [pblczero::NetworkFormat::INPUT_112_WITH_CANONICALIZATION]
    in the network format declaration, which is outside this file. *)
Definition INPUT_112_WITH_CANONICALIZATION : Z := 3.

(** The fields of [V5TrainingData] the drivers read or write.  [result] is
    an [int8_t], the two flag fields are [uint8_t]. *)
Record V5TrainingData : Type := mkV5TrainingData {
  input_format : Z;
  side_to_move_or_enpassant : Z;
  invariance_info : Z;
  result : Z;
  best_q : float;
  best_d : float;
  best_m : float;
  plies_left : float
}.

Definition set_result (c : V5TrainingData) (r : Z) : V5TrainingData :=
  mkV5TrainingData (input_format c) (side_to_move_or_enpassant c)
    (invariance_info c) r (best_q c) (best_d c) (best_m c) (plies_left c).

Definition set_plies_left (c : V5TrainingData) (p : float) : V5TrainingData :=
  mkV5TrainingData (input_format c) (side_to_move_or_enpassant c)
    (invariance_info c) (result c) (best_q c) (best_d c) (best_m c) p.

(** ** [SelfPlayGame::WriteTrainingData] *)

(** The side to move of a record, lines 416-420. *)
Definition chunk_black_to_move (chunk : V5TrainingData) : bool :=
  if input_format chunk =? INPUT_112_WITH_CANONICALIZATION
  then negb (Z.land (invariance_info chunk) (Z.shiftl 1 7) =? 0)
  else negb (side_to_move_or_enpassant chunk =? 0).

(** The outcome label, lines 421-427. *)
Definition chunk_result (game_result_ : GameResult) (black_to_move : bool) : Z :=
  match game_result_ with
  | WHITE_WON => if black_to_move then -1 else 1
  | BLACK_WON => if black_to_move then 1 else -1
  | _ => 0
  end.

(** The body of the [for (auto chunk : training_data_)] loop; the value is
    the sequence of arguments of [writer->WriteChunk], first call first. *)
Fixpoint write_chunks (game_result_ : GameResult) (m_estimate : float)
    (chunks : list V5TrainingData) : list V5TrainingData :=
  match chunks with
  | [] => []
  | chunk :: rest =>
      let black_to_move := chunk_black_to_move chunk in
      let chunk := set_result chunk (chunk_result game_result_ black_to_move) in
      let chunk := set_plies_left chunk m_estimate in
      chunk :: write_chunks game_result_ (F32.sub m_estimate F32.one) rest
  end.

(** [training_data_.back()]. *)
Definition back {A : Type} (d : A) (l : list A) : A := List.last l d.

Definition WriteTrainingData (game_result_ : GameResult)
    (training_data_ : list V5TrainingData) : list V5TrainingData :=
  match training_data_ with
  | [] => []
  | first :: _ =>
      let m_estimate :=
        F32.sub
          (F32.add (best_m (back first training_data_))
                   (F32.of_Z (Z.of_nat (length training_data_))))
          (F32.of_Z 1) in
      write_chunks game_result_ m_estimate training_data_
  end.

(** ** Collaborators

    Everything below is code of the repository outside [selfplay/game.cc];
    the drivers use it through the following operations. *)

(** [chess/]: moves, boards, positions and position histories. *)
Class Chess : Type := {
  Move : Type;
  (** [Move()], the value of a default-constructed move. *)
  Move_null : Move;
  (** [operator==] on moves. *)
  Move_eqb : Move -> Move -> bool;
  (** [Move::Mirror]. *)
  Mirror : Move -> Move;
  ChessBoard : Type;
  (** [board.castlings().no_legal_castle()]. *)
  no_legal_castle : ChessBoard -> bool;
  (** [(board.ours() | board.theirs()).count()]. *)
  piece_count : ChessBoard -> Z;
  GenerateLegalMoves : ChessBoard -> list Move;
  GetLegacyMove : ChessBoard -> Move -> Move;
  Position : Type;
  (** The constructor [Position(parent, move)]. *)
  Position_after : Position -> Move -> Position;
  GetBoard : Position -> ChessBoard;
  Position_IsBlackToMove : Position -> bool;
  PositionHistory : Type;
  Starting : PositionHistory -> Position;
  Last : PositionHistory -> Position;
  GetLength : PositionHistory -> Z;
  Append : PositionHistory -> Move -> PositionHistory;
  Pop : PositionHistory -> PositionHistory;
  ComputeGameResult : PositionHistory -> GameResult;
  History_IsBlackToMove : PositionHistory -> bool
}.

(** [mcts/node.h]: the node tree of one game. *)
Class Tree `{Chess} : Type := {
  Fen : Type;
  Node : Type;
  (** Pointer equality of nodes. *)
  Node_eqb : Node -> Node -> bool;
  Edge : Type;
  (** [edge.GetMove(flip)] and [edge.GetN()], a [uint32_t]. *)
  Edge_GetMove : Edge -> bool -> Move;
  Edge_GetN : Edge -> Z;
  GetParent : Node -> Node;
  (** [parent->GetEdgeToNode(node)]. *)
  GetEdgeToNode : Node -> Node -> Edge;
  NodeTree : Type;
  (** [make_shared<NodeTree>()] followed by [ResetToPosition(fen, {})]. *)
  ResetToPosition : Fen -> NodeTree;
  GetPositionHistory : NodeTree -> PositionHistory;
  HeadPosition : NodeTree -> Position;
  GetPlyCount : NodeTree -> Z;
  Tree_IsBlackToMove : NodeTree -> bool;
  GetCurrentHead : NodeTree -> Node;
  GetGameBeginNode : NodeTree -> Node;
  (** [tree->GetCurrentHead()->Edges()]. *)
  Edges : NodeTree -> list Edge;
  (** [tree->GetCurrentHead()->CreateEdges(moves)]. *)
  CreateEdges : NodeTree -> list Move -> NodeTree;
  MakeMove : NodeTree -> Move -> NodeTree;
  TrimTreeAtHead : NodeTree -> NodeTree
}.

(** [syzygy/syzygy.h]. *)
Inductive WDLScore : Type :=
  | WDL_LOSS
  | WDL_BLESSED_LOSS
  | WDL_DRAW
  | WDL_CURSED_WIN
  | WDL_WIN.

Inductive ProbeState : Type :=
  | FAIL
  | OK
  | CHANGE_STM
  | ZEROING_BEST_MOVE.

Definition ProbeState_is_fail (s : ProbeState) : bool :=
  match s with FAIL => true | _ => false end.

Record SyzygyTablebase `{Chess} : Type := mkSyzygyTablebase {
  max_cardinality : Z;
  probe_wdl : Position -> WDLScore * ProbeState
}.

Arguments mkSyzygyTablebase {_} max_cardinality probe_wdl.

(** [neural/]: the network of player [idx] and its batched computation.
    [GetQVal idx inputs k] is [comp->GetQVal(k)] after [ComputeBlocking] on
    the computation of player [idx] that received [inputs] in that order. *)
Class Network `{Chess} : Type := {
  InputPlanes : Type;
  network_input_format : nat -> Z;
  EncodePositionForNN : Z -> PositionHistory -> InputPlanes;
  GetQVal : nat -> list InputPlanes -> nat -> float
}.

(** ** [SelfPlayLimits::MakeSearchStopper] *)

Inductive SearchStopper : Type :=
  | VisitsStopper (limit : Z)
  | PlayoutsStopper (limit : Z)
  | TimeLimitStopper (limit : Z).

Record SelfPlayLimits : Type := mkSelfPlayLimits {
  visits : Z;
  playouts : Z;
  movetime : Z
}.

(** The chained stopper is the list of its members, in insertion order. *)
Definition MakeSearchStopper (l : SelfPlayLimits) : list SearchStopper :=
  let result := [] in
  let result := if visits l >=? 0 then result ++ [VisitsStopper (visits l)] else result in
  let result := if playouts l >=? 0 then result ++ [PlayoutsStopper (playouts l)] else result in
  let result := if movetime l >=? 0 then result ++ [TimeLimitStopper (movetime l)] else result in
  result.

(** ** Player options

    The values [uci_options->Get<...>] returns for the options this file
    declares in [PopulateUciParams], and the search limits. *)
Record PlayerOptions : Type := mkPlayerOptions {
  ReuseTree : bool;
  ResignPercentage : float;
  ResignWDLStyle : bool;
  ResignEarliestMove : Z;
  MinimumAllowedVisits : Z;
  UCI_Chess960 : bool;
  search_limits : SelfPlayLimits
}.

(** The defaults set in [PopulateUciParams], lines 62-70. *)
Definition default_options (limits : SelfPlayLimits) : PlayerOptions :=
  mkPlayerOptions false F32.zero false 0 0 false limits.

(** The ranges [PopulateUciParams] declares for the numeric options. *)
Definition options_in_range (o : PlayerOptions) : Prop :=
  F32.leb F32.zero (ResignPercentage o) = true /\
  F32.leb (ResignPercentage o) (F32.of_Z 100) = true /\
  0 <= ResignEarliestMove o <= 1000 /\
  0 <= MinimumAllowedVisits o <= 1000000.

(** ** Loop control and the abort flag *)

(** The outcome of one pass through the body of a [while] loop. *)
Inductive Ctl (S : Type) : Type :=
  | Break (s : S)
  | Continue (s : S).
Arguments Break {S} s.
Arguments Continue {S} s.

(** A stretch of a loop body either leaves the loop with the state as it
    stands ([Stop]) or hands on to the next stretch ([Next]). *)
Inductive Step (S A : Type) : Type :=
  | Stop (s : S)
  | Next (a : A).
Arguments Stop {S A} s.
Arguments Next {S A} a.

(** [abort_] is set by [Abort()] from another thread.  [abort_signal n]
    tells whether [Abort()] has been called between the previous read of the
    flag and its [n]-th read; once set the flag stays set. *)
Record AbortFlag : Type := mkAbortFlag {
  abort_set : bool;
  abort_polls : nat
}.

Definition poll_abort (abort_signal : nat -> bool) (a : AbortFlag)
  : bool * AbortFlag :=
  let now := abort_set a || abort_signal (abort_polls a) in
  (now, mkAbortFlag now (S (abort_polls a))).

(** ** The batch value driver, [ValueSelfPlayGames] *)

Record Opening `{Tree} : Type := mkOpening {
  start_fen : Fen;
  moves : list Move
}.

Arguments mkOpening {_ _} start_fen moves.

(** What the driver does to its collaborators, in program order. *)
Inductive ValueEvent `{Network} : Type :=
  | VProbe (game : nat)
  | VComputeBlocking (idx : nat) (inputs : list InputPlanes)
  | VMakeMove (game : nat) (m : Move).

Section BatchDriver.
Context {CH : Chess} {TR : Tree} {NW : Network}.

Record ValueSelfPlayGames : Type := mkValueSelfPlayGames {
  trees_ : list NodeTree;
  results_ : list GameResult;
  syzygy_tb_ : option SyzygyTablebase;
  vabort_ : AbortFlag;
  vevents : list ValueEvent
}.

(** The constructor, lines 72-87. *)
Definition ValueSelfPlayGames_new (openings : list Opening)
    (syzygy_tb : option SyzygyTablebase) : ValueSelfPlayGames :=
  let step (acc : list NodeTree * list GameResult) (opening : Opening) :=
    let tree := ResetToPosition (start_fen opening) in
    let tree := fold_left MakeMove (moves opening) tree in
    (fst acc ++ [tree], snd acc ++ [UNDECIDED]) in
  let '(trees, results) := fold_left step openings ([], []) in
  mkValueSelfPlayGames trees results syzygy_tb (mkAbortFlag false 0) [].

(** [(tree->GetPlyCount() % 2) == 1]. *)
Definition ply_is_odd (tree : NodeTree) : bool :=
  Z.rem (GetPlyCount tree) 2 =? 1.

(** *** First pass of a wave, lines 102-141 *)

Record Scan : Type := mkScan {
  scan_results : list GameResult;
  scan_all_done : bool;
  scan_blacks_move : bool;
  scan_probes : list nat
}.

(** Lines 112-114. *)
Definition tb_applicable (tb : SyzygyTablebase) (tree : NodeTree) : bool :=
  let board := GetBoard (Last (GetPositionHistory tree)) in
  no_legal_castle board && (piece_count board <=? max_cardinality tb).

(** Lines 122-130. *)
Definition tb_result (wdl : WDLScore) (tb_side_black : bool) : GameResult :=
  match wdl with
  | WDL_WIN => if tb_side_black then BLACK_WON else WHITE_WON
  | WDL_LOSS => if tb_side_black then WHITE_WON else BLACK_WON
  | _ => DRAW
  end.

(** Lines 135-139. *)
Definition note_pending (tree : NodeTree) (s : Scan) : Scan :=
  if scan_all_done s
  then mkScan (scan_results s) false (ply_is_odd tree) (scan_probes s)
  else s.

(** The body of the first [for] loop for game [i]. *)
Definition scan_game (tb : option SyzygyTablebase) (trees : list NodeTree)
    (s : Scan) (i : nat) : Scan :=
  match trees !! i, scan_results s !! i with
  | Some tree, Some r =>
      if is_undecided r then
        let computed := ComputeGameResult (GetPositionHistory tree) in
        if negb (is_undecided computed) then
          mkScan (<[i := computed]> (scan_results s)) (scan_all_done s)
                 (scan_blacks_move s) (scan_probes s)
        else
          match tb with
          | Some tb =>
              if tb_applicable tb tree then
                let tb_side_black := ply_is_odd tree in
                let '(wdl, state) := probe_wdl tb (Last (GetPositionHistory tree)) in
                let s := mkScan (scan_results s) (scan_all_done s)
                                (scan_blacks_move s) (scan_probes s ++ [i]) in
                if negb (ProbeState_is_fail state) then
                  mkScan (<[i := tb_result wdl tb_side_black]> (scan_results s))
                         (scan_all_done s) (scan_blacks_move s) (scan_probes s)
                else note_pending tree s
              else note_pending tree s
          | None => note_pending tree s
          end
      else s
  | _, _ => s
  end.

Definition scan_games (tb : option SyzygyTablebase) (trees : list NodeTree)
    (results : list GameResult) : Scan :=
  fold_left (scan_game tb trees) (seq 0 (length trees))
            (mkScan results true false []).

(** *** Second pass, lines 146-167: one-ply expansion *)

(** The wave advances game [i] when it is undecided and its side to move
    is the wave's colour (lines 148-151 and 172-175). *)
Definition in_wave (blacks_move : bool) (tree : NodeTree) (r : GameResult) : bool :=
  is_undecided r && Bool.eqb (ply_is_odd tree) blacks_move.

(** The inner loop, lines 156-166; every submitted position is tagged
    with the game it comes from. *)
Fixpoint submit_children (fmt : Z) (game : nat) (history : PositionHistory)
    (edges : list Edge) (inputs : list (nat * InputPlanes))
  : PositionHistory * list (nat * InputPlanes) :=
  match edges with
  | [] => (history, inputs)
  | edge :: rest =>
      let history := Append history (Edge_GetMove edge false) in
      let inputs :=
        if is_undecided (ComputeGameResult history)
        then inputs ++ [(game, EncodePositionForNN fmt history)]
        else inputs in
      let history := Pop history in
      submit_children fmt game history rest inputs
  end.

Definition expand_game (idx : nat) (blacks_move : bool)
    (results : list GameResult)
    (s : list NodeTree * list (nat * InputPlanes)) (i : nat)
  : list NodeTree * list (nat * InputPlanes) :=
  let '(trees, inputs) := s in
  match trees !! i, results !! i with
  | Some tree, Some r =>
      if in_wave blacks_move tree r then
        let board := GetBoard (Last (GetPositionHistory tree)) in
        let legal_moves := GenerateLegalMoves board in
        let tree := CreateEdges tree legal_moves in
        let history := GetPositionHistory tree in
        let '(_, inputs) :=
          submit_children (network_input_format idx) i history (Edges tree) inputs in
        (<[i := tree]> trees, inputs)
      else s
  | _, _ => s
  end.

(** The second [for] loop. *)
Definition expand_games (idx : nat) (blacks_move : bool)
    (results : list GameResult) (trees : list NodeTree)
  : list NodeTree * list (nat * InputPlanes) :=
  fold_left (expand_game idx blacks_move results) (seq 0 (length trees))
            (trees, []).

(** *** Third pass, lines 169-200: move choice *)

(** The score of the position reached, lines 181-192, and the index of
    the next unread network output. *)
Definition child_score (qval : nat -> float) (result : GameResult)
    (comp_idx : nat) : float * nat :=
  match result with
  | UNDECIDED => (F32.opp (qval comp_idx), S comp_idx)
  | DRAW => (F32.of_Z 0, comp_idx)
  | _ => (F32.of_Z 1, comp_idx)
  end.

Record Choice : Type := mkChoice {
  ch_history : PositionHistory;
  ch_comp_idx : nat;
  ch_max_q : float;
  ch_best : Move
}.

(** The body of the loop over edges, lines 180-197. *)
Definition consider_edge (qval : nat -> float) (flip : bool)
    (c : Choice) (edge : Edge) : Choice :=
  let history := Append (ch_history c) (Edge_GetMove edge false) in
  let result := ComputeGameResult history in
  let '(q, comp_idx) := child_score qval result (ch_comp_idx c) in
  let '(max_q, best) :=
    if F32.geb q (ch_max_q c)
    then (q, Edge_GetMove edge flip)
    else (ch_max_q c, ch_best c) in
  mkChoice (Pop history) comp_idx max_q best.

Definition choose_move (qval : nat -> float) (tree : NodeTree)
    (comp_idx : nat) : Choice :=
  fold_left
    (consider_edge qval (History_IsBlackToMove (GetPositionHistory tree)))
    (Edges tree)
    (mkChoice (GetPositionHistory tree) comp_idx F32.lowest Move_null).

Record Advance : Type := mkAdvance {
  adv_trees : list NodeTree;
  adv_comp_idx : nat;
  adv_events : list ValueEvent
}.

Definition advance_game (qval : nat -> float) (blacks_move : bool)
    (results : list GameResult) (s : Advance) (i : nat) : Advance :=
  match adv_trees s !! i, results !! i with
  | Some tree, Some r =>
      if in_wave blacks_move tree r then
        let c := choose_move qval tree (adv_comp_idx s) in
        mkAdvance (<[i := MakeMove tree (ch_best c)]> (adv_trees s))
                  (ch_comp_idx c)
                  (adv_events s ++ [VMakeMove i (ch_best c)])
      else s
  | _, _ => s
  end.

(** The third [for] loop. *)
Definition advance_games (qval : nat -> float) (blacks_move : bool)
    (results : list GameResult) (s : Advance) : Advance :=
  fold_left (advance_game qval blacks_move results)
            (seq 0 (length (adv_trees s))) s.

(** *** One wave: the body of the outer [while (true)], lines 95-201 *)

Definition Wave (abort_signal : nat -> bool) (g : ValueSelfPlayGames)
  : Ctl ValueSelfPlayGames :=
  let '(aborted, flag) := poll_abort abort_signal (vabort_ g) in
  let g := mkValueSelfPlayGames (trees_ g) (results_ g) (syzygy_tb_ g) flag (vevents g) in
  if aborted then Break g else
  let s := scan_games (syzygy_tb_ g) (trees_ g) (results_ g) in
  let events := vevents g ++ map VProbe (scan_probes s) in
  let results := scan_results s in
  if scan_all_done s then
    Break (mkValueSelfPlayGames (trees_ g) results (syzygy_tb_ g) flag events)
  else
  let blacks_move := scan_blacks_move s in
  let idx := if blacks_move then 1%nat else 0%nat in
  let '(trees, inputs) := expand_games idx blacks_move results (trees_ g) in
  let events := events ++ [VComputeBlocking idx (map snd inputs)] in
  let qval := GetQVal idx (map snd inputs) in
  let a := advance_games qval blacks_move results (mkAdvance trees 0 events) in
  Continue (mkValueSelfPlayGames (adv_trees a) results (syzygy_tb_ g) flag
                                 (adv_events a)).

(** [ValueSelfPlayGames::Play]: waves until one breaks.  [None] when
    [fuel] waves did not finish the loop. *)
Fixpoint ValuePlay (abort_signal : nat -> bool) (fuel : nat)
    (g : ValueSelfPlayGames) : option ValueSelfPlayGames :=
  match fuel with
  | O => None
  | S fuel =>
      match Wave abort_signal g with
      | Break g => Some g
      | Continue g => ValuePlay abort_signal fuel g
      end
  end.

(** The states at the end of each wave run so far, oldest first. *)
Fixpoint ValuePlay_trace (abort_signal : nat -> bool) (fuel : nat)
    (g : ValueSelfPlayGames) : list ValueSelfPlayGames :=
  match fuel with
  | O => []
  | S fuel =>
      match Wave abort_signal g with
      | Break g => [g]
      | Continue g => g :: ValuePlay_trace abort_signal fuel g
      end
  end.

End BatchDriver.

(** ** The single-game driver, [SelfPlayGame] *)

(** [CallbackUciResponder] of player [idx]'s callbacks, possibly wrapped
    in a [Chess960Transformer]. *)
Inductive UciResponder `{Chess} : Type :=
  | CallbackUciResponder (idx : nat)
  | Chess960Transformer (inner : UciResponder) (board : ChessBoard).

(** The value of [Search::GetBestEval]. *)
Record Eval : Type := mkEval {
  wl : float;
  d : float;
  ml : float
}.

(** [mcts/search.h] and the rest of what a search is built from.  The
    search works on the tree it is bound to: [RunBlocking] returns the
    search and the tree as the run leaves them. *)
Class SearchEngine `{Tree} : Type := {
  Search : Type;
  (** Stoppers of other kinds than the three of [MakeSearchStopper]. *)
  OtherStopper : Type;
  (** [PopulateIntrinsicStoppers] for the options of player [idx]: the
      stoppers it adds to the chain. *)
  PopulateIntrinsicStoppers : nat -> list OtherStopper;
  NewSearch : NodeTree -> nat -> UciResponder ->
              list SearchStopper * list OtherStopper -> Search;
  RunBlocking : Search -> NodeTree -> Z -> Search * NodeTree;
  GetTotalPlayouts : Search -> Z;
  GetBestEval : Search -> Eval;
  (** [GetBestMove().first]. *)
  GetBestMove : Search -> Move;
  ResetBestMove : Search -> Search;
  (** [GetCurrentHead()->GetV5TrainingData(result, history, fill,
      input_format, best_wl, best_d, best_m)] on the tree of player [idx]. *)
  GetV5TrainingData : NodeTree -> nat -> GameResult -> Z ->
                      float -> float -> float -> V5TrainingData
}.

Inductive GameEvent `{SearchEngine} : Type :=
  | ENewSearch (idx : nat) (responder : UciResponder)
  | EMakeMove (tree : nat) (m : Move)
  | EDiscarded (fen : Fen) (line : list Move)
  | EResetBestMove.

Section SingleGameDriver.
Context {CH : Chess} {TR : Tree} {NW : Network} {SE : SearchEngine}.

(** [tree_1 = None] when [tree_[1]] is the same object as [tree_[0]]. *)
Record SelfPlayGame : Type := mkSelfPlayGame {
  options_ : PlayerOptions * PlayerOptions;
  tree_0 : NodeTree;
  tree_1 : option NodeTree;
  search_ : option Search;
  game_result_ : GameResult;
  chess960_ : bool;
  min_eval_ : float * float;
  max_eval_ : float * float * float;
  move_count_ : Z;
  nodes_total_ : Z;
  orig_fen_ : Fen;
  training_data_ : list V5TrainingData;
  abort_ : AbortFlag;
  events : list GameEvent
}.

Definition option_of (g : SelfPlayGame) (idx : nat) : PlayerOptions :=
  match idx with O => fst (options_ g) | _ => snd (options_ g) end.

(** [tree_[idx]]. *)
Definition tree_ (g : SelfPlayGame) (idx : nat) : NodeTree :=
  match idx, tree_1 g with
  | S _, Some t => t
  | _, _ => tree_0 g
  end.

(** [tree_[0] != tree_[1]]. *)
Definition trees_distinct (g : SelfPlayGame) : bool :=
  match tree_1 g with Some _ => true | None => false end.

Definition with_trees (g : SelfPlayGame) (t0 : NodeTree) (t1 : option NodeTree)
  : SelfPlayGame :=
  mkSelfPlayGame (options_ g) t0 t1 (search_ g) (game_result_ g) (chess960_ g)
    (min_eval_ g) (max_eval_ g) (move_count_ g) (nodes_total_ g) (orig_fen_ g)
    (training_data_ g) (abort_ g) (events g).

(** A write through the pointer [tree_[idx]]. *)
Definition set_tree (g : SelfPlayGame) (idx : nat) (t : NodeTree) : SelfPlayGame :=
  match idx, tree_1 g with
  | S _, Some _ => with_trees g (tree_0 g) (Some t)
  | _, _ => with_trees g t (tree_1 g)
  end.

Definition with_search (g : SelfPlayGame) (s : Search) : SelfPlayGame :=
  mkSelfPlayGame (options_ g) (tree_0 g) (tree_1 g) (Some s) (game_result_ g)
    (chess960_ g) (min_eval_ g) (max_eval_ g) (move_count_ g) (nodes_total_ g)
    (orig_fen_ g) (training_data_ g) (abort_ g) (events g).

Definition with_result (g : SelfPlayGame) (r : GameResult) : SelfPlayGame :=
  mkSelfPlayGame (options_ g) (tree_0 g) (tree_1 g) (search_ g) r
    (chess960_ g) (min_eval_ g) (max_eval_ g) (move_count_ g) (nodes_total_ g)
    (orig_fen_ g) (training_data_ g) (abort_ g) (events g).

Definition with_evals (g : SelfPlayGame) (mn : float * float)
    (mx : float * float * float) : SelfPlayGame :=
  mkSelfPlayGame (options_ g) (tree_0 g) (tree_1 g) (search_ g) (game_result_ g)
    (chess960_ g) mn mx (move_count_ g) (nodes_total_ g)
    (orig_fen_ g) (training_data_ g) (abort_ g) (events g).

Definition with_counts (g : SelfPlayGame) (mc nt : Z) : SelfPlayGame :=
  mkSelfPlayGame (options_ g) (tree_0 g) (tree_1 g) (search_ g) (game_result_ g)
    (chess960_ g) (min_eval_ g) (max_eval_ g) mc nt
    (orig_fen_ g) (training_data_ g) (abort_ g) (events g).

Definition with_training (g : SelfPlayGame) (td : list V5TrainingData)
  : SelfPlayGame :=
  mkSelfPlayGame (options_ g) (tree_0 g) (tree_1 g) (search_ g) (game_result_ g)
    (chess960_ g) (min_eval_ g) (max_eval_ g) (move_count_ g) (nodes_total_ g)
    (orig_fen_ g) td (abort_ g) (events g).

Definition with_abort (g : SelfPlayGame) (a : AbortFlag) : SelfPlayGame :=
  mkSelfPlayGame (options_ g) (tree_0 g) (tree_1 g) (search_ g) (game_result_ g)
    (chess960_ g) (min_eval_ g) (max_eval_ g) (move_count_ g) (nodes_total_ g)
    (orig_fen_ g) (training_data_ g) a (events g).

Definition with_events (g : SelfPlayGame) (ev : list GameEvent) : SelfPlayGame :=
  mkSelfPlayGame (options_ g) (tree_0 g) (tree_1 g) (search_ g) (game_result_ g)
    (chess960_ g) (min_eval_ g) (max_eval_ g) (move_count_ g) (nodes_total_ g)
    (orig_fen_ g) (training_data_ g) (abort_ g) ev.

Definition log (g : SelfPlayGame) (e : GameEvent) : SelfPlayGame :=
  with_events g (events g ++ [e]).

(** [tree_[0]->MakeMove(m); if (tree_[0] != tree_[1]) tree_[1]->MakeMove(m);] *)
Definition make_move_both (g : SelfPlayGame) (m : Move) : SelfPlayGame :=
  let g := log (with_trees g (MakeMove (tree_0 g) m) (tree_1 g)) (EMakeMove 0 m) in
  match tree_1 g with
  | Some t1 => log (with_trees g (tree_0 g) (Some (MakeMove t1 m))) (EMakeMove 1 m)
  | None => g
  end.

(** The constructor, lines 204-223.  The members initialised in the class
    declaration start at [UNDECIDED], [{1, 1}], [{0, 0, 0}] and [0]. *)
Definition SelfPlayGame_new (player1 player2 : PlayerOptions)
    (shared_tree : bool) (opening : Opening) : SelfPlayGame :=
  let chess960 := UCI_Chess960 player1 || UCI_Chess960 player2 in
  let orig_fen := start_fen opening in
  let t0 := ResetToPosition orig_fen in
  let t1 := if shared_tree then None else Some (ResetToPosition orig_fen) in
  let g := mkSelfPlayGame (player1, player2) t0 t1 None UNDECIDED chess960
             (F32.one, F32.one) (F32.zero, F32.zero, F32.zero) 0 0 orig_fen []
             (mkAbortFlag false 0) [] in
  let step (g : SelfPlayGame) (m : Move) :=
    let g := with_trees g (MakeMove (tree_0 g) m) (tree_1 g) in
    match tree_1 g with
    | Some t1 => with_trees g (tree_0 g) (Some (MakeMove t1 m))
    | None => g
    end in
  fold_left step (moves opening) g.

(** *** [SelfPlayGame::GetMoves], lines 367-385 *)

(** The first loop: from [node] up the parent links to the game-begin
    node; the value is the vector [moves] as the loop leaves it. *)
Fixpoint collect_moves (fuel : nat) (begin node : Node) : option (list Move) :=
  if Node_eqb node begin then Some [] else
  match fuel with
  | O => None
  | S fuel =>
      let parent := GetParent node in
      match collect_moves fuel begin parent with
      | Some more => Some (Edge_GetMove (GetEdgeToNode parent node) false :: more)
      | None => None
      end
  end.

(** One pass of the second loop for the move taken from the back. *)
Definition replay_step (chess960 : bool) (s : Position * list Move) (move : Move)
  : Position * list Move :=
  let '(pos, result) := s in
  let move := if negb chess960 then GetLegacyMove (GetBoard pos) move else move in
  let pos := Position_after pos move in
  let move := if negb (Position_IsBlackToMove pos) then Mirror move else move in
  (pos, result ++ [move]).

(** The second loop takes the moves from the back of the vector. *)
Definition replay (chess960 : bool) (start : Position) (collected : list Move)
  : Position * list Move :=
  fold_left (replay_step chess960) (rev collected) (start, []).

Definition GetMoves (fuel : nat) (g : SelfPlayGame) : option (list Move) :=
  match collect_moves fuel (GetGameBeginNode (tree_0 g))
                      (GetCurrentHead (tree_0 g)) with
  | Some collected =>
      Some (snd (replay (chess960_ g)
                        (Starting (GetPositionHistory (tree_0 g))) collected))
  | None => None
  end.

(** *** Resignation, lines 297-324 *)

Definition resign_decision (o : PlayerOptions) (enable_resign : bool)
    (move_number : Z) (blacks_move : bool) (eval best_w best_d best_l : float)
  : option GameResult :=
  if enable_resign && (move_number >=? ResignEarliestMove o) then
    let resignpct := F32.div (ResignPercentage o) (F32.of_Z 100) in
    if ResignWDLStyle o then
      let threshold := F32.sub F32.one resignpct in
      if F32.gtb best_w threshold then
        Some (if blacks_move then BLACK_WON else WHITE_WON)
      else if F32.gtb best_l threshold then
        Some (if blacks_move then WHITE_WON else BLACK_WON)
      else if F32.gtb best_d threshold then
        Some DRAW
      else None
    else
      if F32.ltb eval resignpct then
        Some (if blacks_move then WHITE_WON else BLACK_WON)
      else None
  else None.

(** Lines 287-288: the win probability centred on one half. *)
Definition centered_eval (e : Eval) : float :=
  F32.div (F32.add (wl e) (F32.of_Z 1)) (F32.of_Z 2).

(** Lines 291-293. *)
Definition eval_best_w (e : Eval) : float :=
  F32.div (F32.sub (F32.add (wl e) F32.one) (d e)) F32.two.
Definition eval_best_d (e : Eval) : float := d e.
Definition eval_best_l (e : Eval) : float := F32.sub (eval_best_w e) (wl e).

(** *** Move acceptance, lines 326-359 *)

(** [static_cast<int>] of a [uint32_t]. *)
Definition static_cast_int (n : Z) : Z :=
  (n + 2 ^ 31) mod 2 ^ 32 - 2 ^ 31.

(** The loop over the edges of the head, lines 329-338: [(max_n, cur_n)]. *)
Definition count_visits (flip : bool) (move : Move) (edges : list Edge) : Z * Z :=
  fold_left
    (fun (acc : Z * Z) (edge : Edge) =>
       let '(max_n, cur_n) := acc in
       let max_n := if Edge_GetN edge >? max_n then Edge_GetN edge else max_n in
       let cur_n :=
         if Move_eqb (Edge_GetMove edge flip) move then Edge_GetN edge else cur_n in
       (max_n, cur_n))
    edges (0, 0).

(** The test of lines 341-343. *)
Definition move_accepted (minimum_allowed_visits max_n cur_n : Z) : bool :=
  (cur_n =? max_n) || (static_cast_int cur_n >=? minimum_allowed_visits).

(** The [while (true)] of lines 327-359 for the player [idx]: the move it
    leaves in [move], the search and the event log.  [None] when [fuel]
    passes did not reach the [break]. *)
Fixpoint accept_move (fuel walk : nat) (g : SelfPlayGame) (idx : nat)
    (search : Search) (ev : list GameEvent)
  : option (Move * Search * list GameEvent) :=
  match fuel with
  | O => None
  | S fuel =>
      let move := GetBestMove search in
      let tree := tree_ g idx in
      let '(max_n, cur_n) :=
        count_visits (Tree_IsBlackToMove tree) move (Edges tree) in
      if move_accepted (MinimumAllowedVisits (option_of g idx)) max_n cur_n
      then Some (move, search, ev)
      else
        let history_copy := GetPositionHistory tree in
        let move_for_history :=
          if Tree_IsBlackToMove tree then Mirror move else move in
        let history_copy := Append history_copy move_for_history in
        let reported :=
          if is_undecided (ComputeGameResult history_copy) then
            match GetMoves walk g with
            | Some move_list_to_discard =>
                Some (ev ++ [EDiscarded (orig_fen_ g) (move_list_to_discard ++ [move])])
            | None => None
            end
          else Some ev in
        match reported with
        | Some ev =>
            accept_move fuel walk g idx (ResetBestMove search) (ev ++ [EResetBestMove])
        | None => None
        end
  end.

(** *** [SelfPlayGame::Play], lines 225-365 *)

(** Lines 248-256: the responder handed to the search. *)
Definition make_responder (chess960 : bool) (idx : nat) (board : ChessBoard)
  : UciResponder :=
  let responder := CallbackUciResponder idx in
  if negb chess960 then Chess960Transformer responder board else responder.

Definition set_min_eval (mn : float * float) (idx : nat) (eval : float)
  : float * float :=
  match idx with
  | O => (if F32.ltb eval (fst mn) then eval else fst mn, snd mn)
  | _ => (fst mn, if F32.ltb eval (snd mn) then eval else snd mn)
  end.

Definition set_max_eval (mx : float * float * float) (blacks_move : bool)
    (best_w best_d best_l : float) : float * float * float :=
  let '(m0, m1, m2) := mx in
  (F32.max m0 (if blacks_move then best_l else best_w),
   F32.max m1 best_d,
   F32.max m2 (if blacks_move then best_w else best_l)).

(** One pass through the body of [while (!abort_)], in four stretches.
    [move_count_] and [nodes_total_] are counters of the class; they are
    kept as plain integers. *)

(** Lines 230-234: the loop test and the end of the game. *)
Definition turn_enter (abort_signal : nat -> bool) (g : SelfPlayGame)
  : Step SelfPlayGame SelfPlayGame :=
  let '(aborted, flag) := poll_abort abort_signal (abort_ g) in
  let g := with_abort g flag in
  if aborted then Stop g else
  let g := with_result g (ComputeGameResult (GetPositionHistory (tree_0 g))) in
  if negb (is_undecided (game_result_ g)) then Stop g else Next g.

(** Lines 236-271: the search of the player to move. *)
Definition turn_search (abort_signal : nat -> bool)
    (white_threads black_threads : Z) (blacks_move : bool) (g : SelfPlayGame)
  : Step SelfPlayGame (SelfPlayGame * Search) :=
  let idx := if blacks_move then 1%nat else 0%nat in
  let g :=
    if negb (ReuseTree (option_of g idx))
    then set_tree g idx (TrimTreeAtHead (tree_ g idx))
    else g in
  let '(aborted, flag) := poll_abort abort_signal (abort_ g) in
  let g := with_abort g flag in
  if aborted then Stop g else
  let stoppers :=
    (MakeSearchStopper (search_limits (option_of g idx)),
     PopulateIntrinsicStoppers idx) in
  let responder :=
    make_responder (chess960_ g) idx (GetBoard (HeadPosition (tree_ g idx))) in
  let search := NewSearch (tree_ g idx) idx responder stoppers in
  let g := log (with_search g search) (ENewSearch idx responder) in
  let '(search, tree) :=
    RunBlocking search (tree_ g idx)
                (if blacks_move then black_threads else white_threads) in
  let g := set_tree (with_search g search) idx tree in
  let g := with_counts g (move_count_ g + 1)
                       (nodes_total_ g + GetTotalPlayouts search) in
  let '(aborted, flag) := poll_abort abort_signal (abort_ g) in
  let g := with_abort g flag in
  if aborted then Stop g else Next (g, search).

(** Lines 273-296: the training record and the running extremes. *)
Definition turn_record (training blacks_move : bool) (g : SelfPlayGame)
    (search : Search) : SelfPlayGame :=
  let idx := if blacks_move then 1%nat else 0%nat in
  let best_eval := GetBestEval search in
  let g :=
    if training then
      with_training g
        (training_data_ g ++
         [GetV5TrainingData (tree_ g idx) idx UNDECIDED (network_input_format idx)
                            (wl best_eval) (d best_eval) (ml best_eval)])
    else g in
  with_evals g (set_min_eval (min_eval_ g) idx (centered_eval best_eval))
    (set_max_eval (max_eval_ g) blacks_move (eval_best_w best_eval)
                  (eval_best_d best_eval) (eval_best_l best_eval)).

(** Line 290. *)
Definition move_number_of (g : SelfPlayGame) : Z :=
  Z.quot (GetLength (GetPositionHistory (tree_0 g))) 2 + 1.

(** Lines 297-364: resignation, move acceptance and the move itself.
    [None] when the move-acceptance loop did not finish within [fuel]
    passes. *)
Definition turn_finish (enable_resign : bool) (fuel walk : nat)
    (blacks_move : bool) (g : SelfPlayGame) (search : Search)
  : option (Ctl (SelfPlayGame * bool)) :=
  let idx := if blacks_move then 1%nat else 0%nat in
  let best_eval := GetBestEval search in
  match resign_decision (option_of g idx) enable_resign (move_number_of g)
                        blacks_move (centered_eval best_eval)
                        (eval_best_w best_eval) (eval_best_d best_eval)
                        (eval_best_l best_eval) with
  | Some r => Some (Break (with_result g r, blacks_move))
  | None =>
      match accept_move fuel walk g idx search (events g) with
      | None => None
      | Some (move, search, ev) =>
          let g := with_events (with_search g search) ev in
          Some (Continue (make_move_both g move, negb blacks_move))
      end
  end.

Definition PlayTurn (abort_signal : nat -> bool)
    (white_threads black_threads : Z) (training enable_resign : bool)
    (fuel walk : nat) (s : SelfPlayGame * bool)
  : option (Ctl (SelfPlayGame * bool)) :=
  let '(g, blacks_move) := s in
  match turn_enter abort_signal g with
  | Stop g => Some (Break (g, blacks_move))
  | Next g =>
      match turn_search abort_signal white_threads black_threads blacks_move g with
      | Stop g => Some (Break (g, blacks_move))
      | Next (g, search) =>
          turn_finish enable_resign fuel walk blacks_move
                      (turn_record training blacks_move g search) search
      end
  end.

(** The loop; [None] when [turns] passes did not reach a [break], or
    when a move-acceptance loop did not finish. *)
Fixpoint PlayLoop (abort_signal : nat -> bool)
    (white_threads black_threads : Z) (training enable_resign : bool)
    (fuel walk turns : nat) (s : SelfPlayGame * bool) : option SelfPlayGame :=
  match turns with
  | O => None
  | S turns =>
      match PlayTurn abort_signal white_threads black_threads training
                     enable_resign fuel walk s with
      | Some (Break s) => Some (fst s)
      | Some (Continue s) =>
          PlayLoop abort_signal white_threads black_threads training
                   enable_resign fuel walk turns s
      | None => None
      end
  end.

Definition Play (abort_signal : nat -> bool)
    (white_threads black_threads : Z) (training enable_resign : bool)
    (fuel walk turns : nat) (g : SelfPlayGame) : option SelfPlayGame :=
  PlayLoop abort_signal white_threads black_threads training enable_resign
           fuel walk turns (g, Tree_IsBlackToMove (tree_0 g)).

(** The object at the end of each pass of the loop run so far, oldest
    first: the passes that went on to the next one, then the pass that left
    the loop (if reached). *)
Fixpoint PlayTrace (abort_signal : nat -> bool)
    (white_threads black_threads : Z) (training enable_resign : bool)
    (fuel walk turns : nat) (s : SelfPlayGame * bool) : list SelfPlayGame :=
  match turns with
  | O => []
  | S turns =>
      match PlayTurn abort_signal white_threads black_threads training
                     enable_resign fuel walk s with
      | Some (Break s) => [fst s]
      | Some (Continue s) =>
          fst s :: PlayTrace abort_signal white_threads black_threads training
                             enable_resign fuel walk turns s
      | None => []
      end
  end.

(** The moves applied to [tree_[0]] so far, from the event log. *)
Definition moves_made (g : SelfPlayGame) : list Move :=
  flat_map (fun e => match e with EMakeMove O m => [m] | _ => [] end) (events g).

(** *** [SelfPlayGame::GetWorstEvalForWinnerOrDraw], lines 387-402 *)

Definition GetWorstEvalForWinnerOrDraw (g : SelfPlayGame) : float :=
  let '(mx0, mx1, mx2) := max_eval_ g in
  if ResignWDLStyle (option_of g 0) then
    match game_result_ g with
    | WHITE_WON => F32.max mx1 mx2
    | BLACK_WON => F32.max mx1 mx0
    | _ => F32.max mx2 mx0
    end
  else
    match game_result_ g with
    | WHITE_WON => fst (min_eval_ g)
    | BLACK_WON => snd (min_eval_ g)
    | _ => F32.min (fst (min_eval_ g)) (snd (min_eval_ g))
    end.

End SingleGameDriver.

(** ** A small instance of the collaborators

    A three-move game used to run the drivers on concrete inputs.  A
    position is the side to move at the start and the moves played since,
    each in the mover's own orientation; [Mirror] negates a move; move [3]
    wins for the mover, six plies without it draw; move [7] has the legacy
    spelling [8]. *)

Module Toy.

Definition modern (m : Z) : Z := if m =? 8 then 7 else m.

Definition pos : Type := bool * list Z.

Definition black_to_move (p : pos) : bool :=
  xorb (fst p) (Nat.odd (length (snd p))).

Definition after (p : pos) (m : Z) : pos := (fst p, snd p ++ [modern m]).

Definition outcome (p : pos) : GameResult :=
  if List.last (snd p) 0 =? 3 then
    (if black_to_move p then WHITE_WON else BLACK_WON)
  else if (6 <=? Z.of_nat (length (snd p))) then DRAW
  else UNDECIDED.

Fixpoint path_eqb (a b : list Z) : bool :=
  match a, b with
  | [], [] => true
  | x :: a, y :: b => (x =? y) && path_eqb a b
  | _, _ => false
  end.

#[global] Instance chess : Chess := {|
  Move := Z;
  Move_null := 0;
  Move_eqb := Z.eqb;
  Mirror := Z.opp;
  ChessBoard := pos;
  no_legal_castle := fun b => negb (Nat.eqb (length (snd b)) 0);
  piece_count := fun b => 6 - Z.of_nat (length (snd b));
  GenerateLegalMoves := fun _ => [1; 2; 3];
  GetLegacyMove := fun _ m => if m =? 7 then 8 else m;
  Position := pos;
  Position_after := after;
  GetBoard := fun p => p;
  Position_IsBlackToMove := black_to_move;
  PositionHistory := pos;
  Starting := fun h => (fst h, []);
  Last := fun h => h;
  GetLength := fun h => 1 + Z.of_nat (length (snd h));
  Append := after;
  Pop := fun h => (fst h, removelast (snd h));
  ComputeGameResult := outcome;
  History_IsBlackToMove := black_to_move
|}.

Record tree : Type := mkTree {
  t_pos : pos;
  t_edges : list (Z * Z)
}.

#[global] Instance nodes : Tree := {|
  Fen := bool;
  Node := list Z;
  Node_eqb := path_eqb;
  Edge := Z * Z;
  Edge_GetMove := fun e flip => if flip then - fst e else fst e;
  Edge_GetN := snd;
  GetParent := fun n => removelast n;
  GetEdgeToNode := fun _ n => (List.last n 0, 0);
  NodeTree := tree;
  ResetToPosition := fun fen => mkTree (fen, []) [];
  GetPositionHistory := t_pos;
  HeadPosition := t_pos;
  GetPlyCount := fun t =>
    (if fst (t_pos t) then 1 else 0) + Z.of_nat (length (snd (t_pos t)));
  Tree_IsBlackToMove := fun t => black_to_move (t_pos t);
  GetCurrentHead := fun t => snd (t_pos t);
  GetGameBeginNode := fun _ => [];
  Edges := t_edges;
  CreateEdges := fun t ms => mkTree (t_pos t) (map (fun m => (m, 0)) ms);
  MakeMove := fun t m =>
    mkTree (after (t_pos t) (if black_to_move (t_pos t) then - m else m)) [];
  TrimTreeAtHead := fun t => mkTree (t_pos t) []
|}.

(** The network values a position by its last move: one half after moves
    [1] and [2], minus one quarter otherwise. *)
#[global] Instance network : Network := {|
  InputPlanes := list Z;
  network_input_format := fun _ => 1;
  EncodePositionForNN := fun _ h => snd h;
  GetQVal := fun _ inputs k =>
    let last_move := List.last (nth k inputs []) 0 in
    if (last_move =? 1) || (last_move =? 2)
    then F32.of_ratio 1 2
    else F32.opp (F32.of_ratio 1 4)
|}.

(** A search is the list of answers [GetBestMove] gives, one per
    [ResetBestMove], and its evaluation.  A run leaves visit counts 50, 50
    and 10 on the three moves and prefers them in the order 3, 2, 1. *)
Record search : Type := mkSearch {
  s_answers : list Z;
  s_eval : Eval
}.

Definition eval0 : Eval :=
  mkEval (F32.of_ratio 96 100) (F32.of_ratio 2 100) (F32.of_Z 4).

#[global] Instance engine : SearchEngine := {|
  Search := search;
  OtherStopper := unit;
  PopulateIntrinsicStoppers := fun _ => [];
  NewSearch := fun t _ _ _ =>
    mkSearch (if black_to_move (t_pos t) then [-3; -2; -1] else [3; 2; 1]) eval0;
  RunBlocking := fun s t _ => (s, mkTree (t_pos t) [(1, 50); (2, 50); (3, 10)]);
  GetTotalPlayouts := fun _ => 110;
  GetBestEval := s_eval;
  GetBestMove := fun s => List.hd 0 (s_answers s);
  ResetBestMove := fun s => mkSearch (List.tl (s_answers s)) (s_eval s);
  GetV5TrainingData := fun t _ _ fmt best_wl best_d best_m =>
    mkV5TrainingData fmt (if black_to_move (t_pos t) then 1 else 0) 0 0
                     best_wl best_d best_m F32.zero
|}.

Definition limits : SelfPlayLimits := mkSelfPlayLimits 110 (-1) (-1).

Definition never (n : nat) : bool := false.

(** A tablebase for positions of at most four pieces: a win for the side
    to move when the last move was [1], a cursed win after [2]; the probe
    fails at the starting position. *)
Definition probe (p : pos) : WDLScore * ProbeState :=
  match snd p with
  | [] => (WDL_DRAW, FAIL)
  | _ => if List.last (snd p) 0 =? 1 then (WDL_WIN, OK)
         else (WDL_CURSED_WIN, ZEROING_BEST_MOVE)
  end.

Definition tablebase : SyzygyTablebase :=
  mkSyzygyTablebase 4 probe.

End Toy.

(** ** Notions used to state the properties *)

(** The label the specification gives the [k]-th of [n] records, [k]
    counted from one: the last record's estimate plus [n - 1] minus [k - 1],
    as an exact number. *)
Definition spec_plies_left (m_last : Q) (n k : nat) : Q :=
  (m_last + (inject_Z (Z.of_nat n) - 1) - (inject_Z (Z.of_nat k) - 1))%Q.

(** The same formula evaluated in single precision, left to right. *)
Definition spec_plies_left_f32 (m_last : float) (n k : nat) : float :=
  F32.sub (F32.add m_last (F32.of_Z (Z.of_nat n - 1))) (F32.of_Z (Z.of_nat k - 1)).

(** The specification's labelling of a record set: every written record
    carries the exact value of the formula. *)
Definition plies_left_as_specified (game_result_ : GameResult)
    (training_data_ : list V5TrainingData) : Prop :=
  forall (k : nat) (final w : V5TrainingData) (m q : Q),
    last training_data_ = Some final ->
    WriteTrainingData game_result_ training_data_ !! k = Some w ->
    F32.to_Q (best_m final) = Some m ->
    F32.to_Q (plies_left w) = Some q ->
    (q == spec_plies_left m (length training_data_) (S k))%Q.

(** The running counter of the loop after [k] records. *)
Definition countdown (m_estimate : float) (k : nat) : float :=
  Nat.iter k (fun m => F32.sub m F32.one) m_estimate.


Section Notions.
Context {CH : Chess} {TR : Tree} {NW : Network} {SE : SearchEngine}.


(** What a pass of the single-game loop never changes. *)
Definition same_setup (g g' : SelfPlayGame) : Prop :=
  options_ g' = options_ g /\ chess960_ g' = chess960_ g /\
  orig_fen_ g' = orig_fen_ g /\ trees_distinct g' = trees_distinct g.

(** Events of the move-acceptance loop only. *)
Definition only_retries (ev : list GameEvent) : Prop :=
  Forall (fun e => match e with EDiscarded _ _ | EResetBestMove => True | _ => False end) ev.

(** A search as the driver reads it: constructed, then run to its end. *)
Definition search_run (search : Search) : Prop :=
  exists t idx responder stoppers t' threads,
    search = fst (RunBlocking (NewSearch t idx responder stoppers) t' threads).

(** Every search in the log was given the responder [make_responder]
    builds for the match mode [chess960]. *)
Definition responders_of (chess960 : bool) (ev : list GameEvent) : Prop :=
  Forall (fun e => match e with
                   | ENewSearch idx r => exists board, r = make_responder chess960 idx board
                   | _ => True
                   end) ev.

Definition is_transformer (r : UciResponder) : Prop :=
  match r with Chess960Transformer _ _ => True | CallbackUciResponder _ => False end.

(** Replaying a move list from a position, a move at a time as the driver
    itself applies a move to a history (lines 346-351): the move is mirrored
    when Black is to move, then played. *)
Definition play_line (start : Position) (line : list Move) : Position :=
  fold_left
    (fun pos m => Position_after pos (if Position_IsBlackToMove pos then Mirror m else m))
    line start.

(** [descends begin node line]: [node] is reached from the game-begin node
    through parent links, and [line] lists the moves on the edges of that
    path from the game-begin node down. *)
Inductive descends (begin : Node) : Node -> list Move -> Prop :=
  | descends_begin (node : Node) :
      Node_eqb node begin = true -> descends begin node []
  | descends_child (node : Node) (line : list Move) :
      Node_eqb node begin = false ->
      descends begin (GetParent node) line ->
      descends begin node
        (line ++ [Edge_GetMove (GetEdgeToNode (GetParent node) node) false]).

(** The tree's history is its starting position followed by the moves on
    the path to the current head. *)
Definition history_follows_path (t : NodeTree) (line : list Move) : Prop :=
  descends (GetGameBeginNode t) (GetCurrentHead t) line /\
  Last (GetPositionHistory t) =
    fold_left Position_after line (Starting (GetPositionHistory t)).

End Notions.

(** What the drivers rely on from the chess collaborators when a move list
    is replayed: mirroring twice gives the move back, a move passes the turn,
    and the legacy spelling of a move leads to the same position. *)
Class ChessLaws `{Chess} : Prop := {
  Mirror_involutive : forall m, Mirror (Mirror m) = m;
  Position_after_turn : forall p m,
    Position_IsBlackToMove (Position_after p m) = negb (Position_IsBlackToMove p);
  legacy_same_position : forall p m,
    Position_after p (GetLegacyMove (GetBoard p) m) = Position_after p m
}.

(** ** Notions used to state the further properties *)

Section LogNotions.
Context {CH : Chess} {TR : Tree} {NW : Network} {SE : SearchEngine}.

(** The moves applied to [tree_[k]], read off an event log. *)
Definition moves_on (k : nat) (ev : list GameEvent) : list Move :=
  flat_map (fun e => match e with
                     | EMakeMove k' m => if Nat.eqb k' k then [m] else []
                     | _ => []
                     end) ev.

(** A record as the driver captures it: the result left undecided. *)
Definition captured_undecided (c : V5TrainingData) : Prop :=
  exists t idx fmt best_wl best_d best_m,
    c = GetV5TrainingData t idx UNDECIDED fmt best_wl best_d best_m.

(** No [Abort()] call ever reaches the game: the flag is clear and stays
    so. *)
Definition never_aborted (abort_signal : nat -> bool) (a : AbortFlag) : Prop :=
  abort_set a = false /\ forall n, abort_signal n = false.

(** The five running extremes are numbers. *)
Definition extremes_are_numbers (g : SelfPlayGame) : Prop :=
  F32.is_nan (fst (min_eval_ g)) = false /\
  F32.is_nan (snd (min_eval_ g)) = false /\
  F32.is_nan (fst (fst (max_eval_ g))) = false /\
  F32.is_nan (snd (fst (max_eval_ g))) = false /\
  F32.is_nan (snd (max_eval_ g)) = false.

(** The extremes of [g'] are at least as far out as those of [g]: the
    minima no larger, the maxima no smaller. *)
Definition extremes_widened (g g' : SelfPlayGame) : Prop :=
  F32.leb (fst (min_eval_ g')) (fst (min_eval_ g)) = true /\
  F32.leb (snd (min_eval_ g')) (snd (min_eval_ g)) = true /\
  F32.leb (fst (fst (max_eval_ g))) (fst (fst (max_eval_ g'))) = true /\
  F32.leb (snd (fst (max_eval_ g))) (snd (fst (max_eval_ g'))) = true /\
  F32.leb (snd (max_eval_ g)) (snd (max_eval_ g')) = true.

End LogNotions.

Section WaveNotions.
Context {CH : Chess} {TR : Tree} {NW : Network}.

(** What the first pass of a wave does with one undecided game: its new
    result, whether the tablebase was probed, and whether the game is left
    for the network. *)
Definition scan_one (tb : option SyzygyTablebase) (tree : NodeTree)
  : GameResult * bool * bool :=
  let computed := ComputeGameResult (GetPositionHistory tree) in
  if negb (is_undecided computed) then (computed, false, false) else
  match tb with
  | Some tb =>
      if tb_applicable tb tree then
        let '(wdl, state) := probe_wdl tb (Last (GetPositionHistory tree)) in
        if negb (ProbeState_is_fail state)
        then (tb_result wdl (ply_is_odd tree), true, false)
        else (UNDECIDED, true, true)
      else (UNDECIDED, false, true)
  | None => (UNDECIDED, false, true)
  end.

(** Game [i] awaits the network after the first pass. *)
Definition pending (tb : option SyzygyTablebase) (trees : list NodeTree)
    (results : list GameResult) (i : nat) : bool :=
  match trees !! i, results !! i with
  | Some tree, Some r => is_undecided r && snd (scan_one tb tree)
  | _, _ => false
  end.

Definition is_move_event (e : ValueEvent) : Prop :=
  match e with VMakeMove _ _ => True | _ => False end.

End WaveNotions.

Section WaveNotions2.
Context {CH : Chess} {TR : Tree} {NW : Network}.

(** The tree of a game of the wave once its edges exist, lines 152-154. *)
Definition expanded (tree : NodeTree) : NodeTree :=
  CreateEdges tree (GenerateLegalMoves (GetBoard (Last (GetPositionHistory tree)))).

(** The number of edges that lead to a position that is not terminal,
    walking the history as both loops over the edges do. *)
Fixpoint undecided_children (history : PositionHistory) (edges : list Edge) : nat :=
  match edges with
  | [] => 0
  | edge :: rest =>
      let history := Append history (Edge_GetMove edge false) in
      (if is_undecided (ComputeGameResult history) then 1 else 0) +
      undecided_children (Pop history) rest
  end.

(** The positions game [i] submits in the second pass, tagged. *)
Definition submitted_by (fmt : Z) (i : nat) (tree : NodeTree)
  : list (nat * InputPlanes) :=
  snd (submit_children fmt i (GetPositionHistory tree) (Edges tree) []).

(** Game [i] is advanced by a wave of colour [blacks_move]. *)
Definition member (blacks_move : bool) (trees : list NodeTree)
    (results : list GameResult) (i : nat) : bool :=
  match trees !! i, results !! i with
  | Some tree, Some r => in_wave blacks_move tree r
  | _, _ => false
  end.

(** Creating the edges of the head leaves the ply count as it is. *)
Definition edges_keep_ply : Prop :=
  forall (t : NodeTree) (ms : list Move),
    GetPlyCount (CreateEdges t ms) = GetPlyCount t.

End WaveNotions2.

(** * Properties *)

(** ** Single precision: signs and the order *)

Module F32Facts.

(** [x] is not below zero: its sign bit is [s], or it is not a number. *)
Definition sign_is (s : bool) (x : float) : Prop :=
  match x with
  | S754_zero s' | S754_infinity s' | S754_finite s' _ _ => s' = s
  | S754_nan => True
  end.

Lemma binary_round_aux_sign s m e l :
  sign_is s (binary_round_aux F32.prec F32.emax s m e l).
Proof.
  unfold binary_round_aux.
  destruct (shr_fexp F32.prec F32.emax m e l) as [mrs' e'].
  destruct (shr_fexp F32.prec F32.emax _ e' loc_Exact) as [mrs'' e''].
  destruct (shr_m mrs''); simpl; auto.
  destruct (Z.leb _ _); simpl; auto.
Qed.

Lemma binary_round_sign s m e :
  sign_is s (binary_round F32.prec F32.emax s m e).
Proof.
  unfold binary_round. destruct (shl_align _ _ _) as [mz ez].
  apply binary_round_aux_sign.
Qed.

Lemma binary_normalize_nonneg m e :
  0 <= m -> sign_is false (binary_normalize F32.prec F32.emax m e false).
Proof.
  intros Hm. destruct m as [|p|p]; simpl.
  - reflexivity.
  - apply binary_round_sign.
  - lia.
Qed.

Lemma div_two_sign x : sign_is false x -> sign_is false (F32.div x F32.two).
Proof.
  change F32.two with (S754_finite false 8388608 (-22)).
  destruct x as [s|s| |s m e]; simpl; intros H; subst; auto.
  unfold F32.div, SFdiv.
  destruct (SFdiv_core_binary _ _ _ _ _ _) as [[mz ez] lz].
  apply binary_round_aux_sign.
Qed.

Lemma sign_false_not_below_zero x b :
  sign_is false x -> F32.ltb x (S754_zero b) = false.
Proof.
  destruct x as [s|s| |s m e]; simpl; intros H; subst; reflexivity.
Qed.

Lemma digits2_pos_bound (m : positive) :
  Z.pos m < 2 ^ Z.pos (digits2_pos m).
Proof.
  induction m as [p IH|p IH|]; simpl digits2_pos.
  - rewrite Pos2Z.inj_succ, Z.pow_succ_r by lia. lia.
  - rewrite Pos2Z.inj_succ, Z.pow_succ_r by lia. lia.
  - reflexivity.
Qed.

Lemma iter_xO_value (p d : positive) :
  Z.pos (Pos.iter xO p d) = Z.pos p * 2 ^ Z.pos d.
Proof.
  induction d as [|d IH] using Pos.peano_ind.
  - simpl. lia.
  - rewrite Pos.iter_succ, Pos2Z.inj_succ, Z.pow_succ_r by lia.
    rewrite Pos2Z.inj_xO, IH. lia.
Qed.

Lemma valid_mantissa_bound s m e :
  F32.valid (S754_finite s m e) -> Z.pos m < 2 ^ 24.
Proof.
  unfold F32.valid, valid_binary, bounded, canonical_mantissa, fexp, emin,
    F32.prec, F32.emax.
  intros H. apply andb_prop in H as [H _]. apply Z.eqb_eq in H.
  pose proof (digits2_pos_bound m) as Hd.
  assert (Z.pos (digits2_pos m) <= 24) by lia.
  eapply Z.lt_le_trans; [exact Hd|].
  apply Z.pow_le_mono_r; lia.
Qed.

(** A valid number that is not below -1, plus one, is not below zero. *)
Lemma add_one_sign x :
  F32.valid x ->
  F32.ltb x (F32.opp F32.one) = false ->
  sign_is false (F32.add x (F32.of_Z 1)).
Proof.
  change (F32.of_Z 1) with (S754_finite false 8388608 (-23)).
  change (F32.opp F32.one) with (S754_finite true 8388608 (-23)).
  destruct x as [s|s| |s m e]; intros Hv Hlt.
  - destruct s; reflexivity.
  - destruct s; [discriminate Hlt|reflexivity].
  - exact I.
  - unfold F32.add, SFadd. destruct s.
    + (* a negative number: the aligned sum is not negative *)
      apply binary_normalize_nonneg.
      pose proof (valid_mantissa_bound _ _ _ Hv) as Hm.
      unfold F32.ltb, SFltb, SFcompare in Hlt.
      change (Pos.compare_cont Eq m 8388608) with (Pos.compare m 8388608) in Hlt.
      assert (He : e < -23 \/ (e = -23 /\ (m <= 8388608)%positive)).
      { destruct (Z.compare_spec e (-23)) as [Heq|Hl|Hg].
        - right. split; [exact Heq|].
          destruct (Pos.compare_spec m 8388608) as [->|?|?];
            simpl in Hlt; try discriminate; lia.
        - left. exact Hl.
        - discriminate Hlt. }
      unfold shl_align, cond_Zopp.
      destruct He as [He|[-> Hm']].
      * rewrite (Z.min_l e (-23)) by lia. rewrite Z.sub_diag. simpl fst.
        destruct (e - -23) as [|d|d] eqn:Hd; try lia. simpl fst.
        rewrite iter_xO_value.
        assert (2 ^ 1 <= 2 ^ Z.pos d) by (apply Z.pow_le_mono_r; lia).
        lia.
      * simpl. lia.
    + unfold cond_Zopp. apply binary_normalize_nonneg. lia.
Qed.

(** *** The order of [<] and [<=] on numbers *)

Lemma leb_not_nan a b :
  F32.leb a b = true -> F32.is_nan a = false /\ F32.is_nan b = false.
Proof.
  destruct a, b; simpl; intros H; try discriminate H; auto.
Qed.

Lemma ltb_leb a b : F32.ltb a b = true -> F32.leb a b = true.
Proof.
  unfold F32.ltb, F32.leb, SFltb, SFleb.
  destruct (SFcompare a b) as [[| |]|]; intros H; try discriminate; reflexivity.
Qed.

Lemma SFcompare_swap a b :
  SFcompare b a = option_map CompOpp (SFcompare a b).
Proof.
  destruct a as [s1|s1| |s1 m1 e1], b as [s2|s2| |s2 m2 e2]; simpl;
    try reflexivity; try (destruct s1; reflexivity);
    try (destruct s2; reflexivity);
    try (destruct s1, s2; reflexivity).
  change (Pos.compare_cont Eq m1 m2) with (Pos.compare m1 m2).
  change (Pos.compare_cont Eq m2 m1) with (Pos.compare m2 m1).
  rewrite (Z.compare_antisym e1 e2), (Pos.compare_antisym m1 m2).
  destruct s1, s2; simpl; try reflexivity;
    destruct (e1 ?= e2); simpl; try reflexivity;
    destruct (m1 ?= m2)%positive; reflexivity.
Qed.

(** Two numbers are comparable: when [a <= b] fails, [b < a] holds. *)
Lemma leb_false_ltb a b :
  F32.is_nan a = false -> F32.is_nan b = false ->
  F32.leb a b = false -> F32.ltb b a = true.
Proof.
  intros Ha Hb. unfold F32.leb, F32.ltb, SFleb, SFltb.
  rewrite (SFcompare_swap a b).
  destruct a, b; try discriminate Ha; try discriminate Hb;
    destruct (SFcompare _ _) as [[| |]|] eqn:Hc; simpl; intros H;
    try discriminate H; try reflexivity; simpl in Hc; discriminate Hc.
Qed.

(** The rank of the sign-and-kind of a number, and the comparison as the
    lexicographic order of rank, exponent and mantissa. *)
Definition key (x : float) : Z * Z * Z :=
  match x with
  | S754_infinity true => (-2, 0, 0)
  | S754_finite true m e => (-1, - e, - Z.pos m)
  | S754_zero _ => (0, 0, 0)
  | S754_finite false m e => (1, e, Z.pos m)
  | S754_infinity false => (2, 0, 0)
  | S754_nan => (3, 0, 0)
  end.

Definition key_le (k1 k2 : Z * Z * Z) : Prop :=
  let '(a1, b1, c1) := k1 in
  let '(a2, b2, c2) := k2 in
  a1 < a2 \/ (a1 = a2 /\ (b1 < b2 \/ (b1 = b2 /\ c1 <= c2))).

Lemma leb_key a b :
  F32.is_nan a = false -> F32.is_nan b = false ->
  (F32.leb a b = true <-> key_le (key a) (key b)).
Proof.
  intros Ha Hb. unfold F32.leb, SFleb.
  destruct a as [s1|s1| |s1 m1 e1], b as [s2|s2| |s2 m2 e2];
    try discriminate Ha; try discriminate Hb; clear Ha Hb;
    try destruct s1; try destruct s2; simpl;
    try (split; [intros _; lia | intros _; reflexivity]);
    try (split; [intros Hx; discriminate Hx | intros Hx; lia]).
  all: change (Pos.compare_cont Eq m1 m2) with (Pos.compare m1 m2);
    destruct (Z.compare_spec e1 e2); destruct (Pos.compare_spec m1 m2);
    simpl; split; intros Hx; try reflexivity; try discriminate Hx; try lia.
Qed.

Lemma leb_trans a b c :
  F32.leb a b = true -> F32.leb b c = true -> F32.leb a c = true.
Proof.
  intros Hab Hbc.
  destruct (leb_not_nan _ _ Hab) as [Ha Hb].
  destruct (leb_not_nan _ _ Hbc) as [_ Hc].
  apply (leb_key a b Ha Hb) in Hab. apply (leb_key b c Hb Hc) in Hbc.
  apply (leb_key a c Ha Hc).
  unfold key_le in *.
  destruct (key a) as [[a1 a2] a3], (key b) as [[b1 b2] b3],
           (key c) as [[c1 c2] c3].
  lia.
Qed.

Lemma ltb_not_nan a b :
  F32.ltb a b = true -> F32.is_nan a = false /\ F32.is_nan b = false.
Proof. intros H. apply leb_not_nan, ltb_leb, H. Qed.

End F32Facts.

(** * Properties *)

(** ** Training records: [WriteTrainingData] *)

Lemma countdown_S m k :
  countdown (F32.sub m F32.one) k = countdown m (S k).
Proof.
  unfold countdown. induction k as [|k IH]; simpl; [reflexivity|].
  now rewrite IH.
Qed.

Lemma write_chunks_length gr m chunks :
  length (write_chunks gr m chunks) = length chunks.
Proof.
  revert m. induction chunks as [|c rest IH]; intros m; simpl; [reflexivity|].
  now rewrite IH.
Qed.

Lemma write_chunks_lookup gr chunks :
  forall m k chunk,
    chunks !! k = Some chunk ->
    write_chunks gr m chunks !! k =
      Some (set_plies_left
              (set_result chunk (chunk_result gr (chunk_black_to_move chunk)))
              (countdown m k)).
Proof.
  induction chunks as [|c rest IH]; intros m k chunk Hk.
  - destruct k; discriminate.
  - destruct k as [|k]; simpl in *.
    + injection Hk as ->. reflexivity.
    + rewrite (IH _ _ _ Hk). now rewrite countdown_S.
Qed.

Lemma back_snoc {A : Type} (d : A) (init : list A) (final : A) :
  back d (init ++ [final]) = final.
Proof. unfold back. apply List.last_last. Qed.

Lemma last_default_irrelevant {A : Type} (l : list A) (d1 d2 : A) :
  l <> [] -> List.last l d1 = List.last l d2.
Proof.
  induction l as [|x xs IH]; [congruence|]. intros _.
  destruct xs as [|y ys]; [reflexivity|].
  change (List.last (y :: ys) d1 = List.last (y :: ys) d2).
  apply IH. discriminate.
Qed.

Lemma WriteTrainingData_nonempty gr td first :
  td <> [] ->
  WriteTrainingData gr td =
    write_chunks gr
      (F32.sub (F32.add (best_m (back first td)) (F32.of_Z (Z.of_nat (length td))))
               (F32.of_Z 1)) td.
Proof.
  destruct td as [|c rest]; [congruence|]. intros _. unfold WriteTrainingData.
  f_equal. f_equal. f_equal. f_equal. unfold back.
  apply last_default_irrelevant. discriminate.
Qed.

Lemma chunk_black_to_move_bit7 chunk :
  input_format chunk = INPUT_112_WITH_CANONICALIZATION ->
  chunk_black_to_move chunk = Z.testbit (invariance_info chunk) 7.
Proof.
  intros Hf. unfold chunk_black_to_move. rewrite Hf, Z.eqb_refl.
  change (Z.shiftl 1 7) with (2 ^ 7).
  destruct (Z.testbit (invariance_info chunk) 7) eqn:Hb.
  - apply negb_true_iff, Z.eqb_neq. intros H0.
    assert (Z.testbit (Z.land (invariance_info chunk) (2 ^ 7)) 7 = true) as Ht.
    { rewrite Z.land_spec, Hb, Z.pow2_bits_true; [reflexivity|lia]. }
    rewrite H0 in Ht. now rewrite Z.bits_0 in Ht.
  - apply negb_false_iff, Z.eqb_eq. apply Z.bits_inj'. intros n Hn.
    rewrite Z.land_spec, Z.bits_0.
    destruct (Z.eq_dec n 7) as [->|Hne].
    + now rewrite Hb.
    + rewrite (Z.pow2_bits_false 7 n) by lia. apply andb_false_r.
Qed.

(** C2, as amended: [WriteTrainingData] writes nothing for an empty record
    set; otherwise it hands the writer one record per captured record, in
    capture order, each with its outcome label (+1 when the record's side to
    move won, -1 when the other side won, 0 otherwise, the side to move being
    bit 7 of [invariance_info] under the canonicalized input format) and with
    the moves-remaining label computed in single precision: the last
    record's estimate plus the record count, minus one, minus one again per
    earlier record.  For three records and a final estimate of 4.0 the labels
    are 6.0, 5.0, 4.0. *)
Theorem WriteTrainingData_backfill :
  forall (game_result_ : GameResult) (init : list V5TrainingData)
         (final : V5TrainingData),
    let training_data_ := init ++ [final] in
    let n := length training_data_ in
    let written := WriteTrainingData game_result_ training_data_ in
    let m_estimate :=
      F32.sub (F32.add (best_m final) (F32.of_Z (Z.of_nat n))) (F32.of_Z 1) in
    WriteTrainingData game_result_ [] = [] /\
    length written = n /\
    (forall (k : nat) (chunk : V5TrainingData),
        training_data_ !! k = Some chunk ->
        exists w,
          written !! k = Some w /\
          input_format w = input_format chunk /\
          side_to_move_or_enpassant w = side_to_move_or_enpassant chunk /\
          invariance_info w = invariance_info chunk /\
          best_q w = best_q chunk /\ best_d w = best_d chunk /\
          best_m w = best_m chunk /\
          plies_left w = countdown m_estimate k /\
          result w = chunk_result game_result_ (chunk_black_to_move chunk) /\
          (input_format chunk = INPUT_112_WITH_CANONICALIZATION ->
           chunk_black_to_move chunk = Z.testbit (invariance_info chunk) 7) /\
          (input_format chunk <> INPUT_112_WITH_CANONICALIZATION ->
           chunk_black_to_move chunk = negb (side_to_move_or_enpassant chunk =? 0))) /\
    (forall b : bool,
        chunk_result WHITE_WON b = (if b then -1 else 1) /\
        chunk_result BLACK_WON b = (if b then 1 else -1) /\
        chunk_result DRAW b = 0) /\
    (length init = 2%nat -> best_m final = F32.of_Z 4 ->
     map plies_left written = [F32.of_Z 6; F32.of_Z 5; F32.of_Z 4]).
Proof.
  intros gr init final td n written m_estimate.
  assert (Hne : td <> []) by (unfold td; destruct init; discriminate).
  assert (Hw : written = write_chunks gr m_estimate td).
  { unfold written. rewrite (WriteTrainingData_nonempty gr td final Hne).
    unfold m_estimate, td, n. now rewrite back_snoc. }
  split; [reflexivity|]. split; [|split; [|split]].
  - rewrite Hw. apply write_chunks_length.
  - intros k chunk Hk. eexists. split.
    + rewrite Hw. apply (write_chunks_lookup gr td m_estimate k chunk Hk).
    + simpl. repeat split; try reflexivity.
      * apply chunk_black_to_move_bit7.
      * intros Hf. unfold chunk_black_to_move.
        apply Z.eqb_neq in Hf. now rewrite Hf.
  - intros b. repeat split.
  - intros Hlen Hm. rewrite Hw. unfold m_estimate, n, td.
    destruct init as [|c1 [|c2 [|c3 rest]]]; try discriminate.
    rewrite Hm. reflexivity.
Qed.

(** The three-record game of the specification: won by White, who is to
    move at the first and the last record. *)
Lemma WriteTrainingData_backfill_witness :
  let c (stm : Z) (m : float) :=
    mkV5TrainingData 1 stm 0 0 F32.zero F32.zero m F32.zero in
  let td := [c 0 (F32.of_Z 9); c 1 (F32.of_Z 7)] ++ [c 0 (F32.of_Z 4)] in
  map plies_left (WriteTrainingData WHITE_WON td)
    = [F32.of_Z 6; F32.of_Z 5; F32.of_Z 4] /\
  map result (WriteTrainingData WHITE_WON td) = [1; -1; 1] /\
  exists w, WriteTrainingData WHITE_WON td !! 1%nat = Some w /\ result w = -1.
Proof.
  intros c td.
  pose proof (WriteTrainingData_backfill WHITE_WON
                [c 0 (F32.of_Z 9); c 1 (F32.of_Z 7)] (c 0 (F32.of_Z 4)))
    as (_ & _ & Hk & _ & Hex).
  split; [apply Hex; reflexivity|]. split; [reflexivity|].
  destruct (Hk 1%nat (c 1 (F32.of_Z 7)) eq_refl)
    as (w & Hw & _ & _ & _ & _ & _ & _ & _ & Hr & _).
  exists w. split; [exact Hw|]. rewrite Hr. reflexivity.
Defined.

(** C2, as stated, fails: with two records and a final estimate of 0.1f the
    last record is labelled 0.0999999046..., not the estimate itself, and the
    first is labelled neither the exact 1.1 nor its single-precision sum. *)
Lemma WriteTrainingData_rounding_counterexample :
  let c (m : float) := mkV5TrainingData 1 0 0 0 F32.zero F32.zero m F32.zero in
  let td := [c F32.one; c (F32.of_ratio 1 10)] in
  ~ plies_left_as_specified WHITE_WON td /\
  map plies_left (WriteTrainingData WHITE_WON td)
    <> [spec_plies_left_f32 (F32.of_ratio 1 10) 2 1;
        spec_plies_left_f32 (F32.of_ratio 1 10) 2 2].
Proof.
  intros c td. split.
  - intros H.
    specialize (H 1%nat (c (F32.of_ratio 1 10))
                  (set_plies_left (set_result (c (F32.of_ratio 1 10)) 1)
                                  (S754_finite false 13421760 (-27)))
                  (13421773 # 134217728)%Q (13421760 # 134217728)%Q
                  eq_refl eq_refl eq_refl eq_refl).
    vm_compute in H. discriminate H.
  - vm_compute. intros H. discriminate H.
Qed.

(** ** The single-game driver: one pass of the loop *)

Lemma is_undecided_true r : is_undecided r = true <-> r = UNDECIDED.
Proof. destruct r; simpl; split; intros H; congruence. Qed.

Lemma is_undecided_false r : is_undecided r = false <-> r <> UNDECIDED.
Proof. destruct r; simpl; split; intros H; congruence. Qed.

Section PlayFacts.
Context {CH : Chess} {TR : Tree} {NW : Network} {SE : SearchEngine}.

Lemma same_setup_refl g : same_setup g g.
Proof. repeat split. Qed.

Lemma same_setup_trans g1 g2 g3 :
  same_setup g1 g2 -> same_setup g2 g3 -> same_setup g1 g3.
Proof.
  unfold same_setup. intros (?&?&?&?) (?&?&?&?). repeat split; congruence.
Qed.

Lemma same_setup_option_of g g' idx :
  same_setup g g' -> option_of g' idx = option_of g idx.
Proof. intros (H&_). unfold option_of. now rewrite H. Qed.

Lemma moves_made_app g ev :
  moves_made (with_events g (events g ++ ev)) =
    moves_made g ++ flat_map (fun e => match e with EMakeMove O m => [m] | _ => [] end) ev.
Proof. unfold moves_made. simpl. apply flat_map_app. Qed.

Lemma set_tree_setup g idx t : same_setup g (set_tree g idx t).
Proof.
  unfold set_tree, same_setup, trees_distinct.
  destruct idx, (tree_1 g); simpl; repeat split.
Qed.

Lemma set_tree_keeps g idx t :
  game_result_ (set_tree g idx t) = game_result_ g /\
  events (set_tree g idx t) = events g /\
  abort_ (set_tree g idx t) = abort_ g /\
  training_data_ (set_tree g idx t) = training_data_ g.
Proof.
  unfold set_tree. destruct idx, (tree_1 g); simpl; repeat split.
Qed.

(** *** Lines 230-234 *)

Lemma turn_enter_stop sig g g' :
  turn_enter sig g = Stop g' ->
  same_setup g g' /\ events g' = events g /\
  tree_0 g' = tree_0 g /\ tree_1 g' = tree_1 g /\
  (game_result_ g' = game_result_ g \/
   (game_result_ g' = ComputeGameResult (GetPositionHistory (tree_0 g)) /\
    game_result_ g' <> UNDECIDED)).
Proof.
  unfold turn_enter. destruct (poll_abort sig (abort_ g)) as [a f].
  destruct a.
  - intros [= <-]. simpl. repeat split. now left.
  - cbn [game_result_ with_result].
    destruct (is_undecided _) eqn:Hu; cbn [negb]; [discriminate|].
    intros [= <-]. simpl. repeat split. right. split; [reflexivity|].
    now apply is_undecided_false.
Qed.

Lemma turn_enter_next sig g g' :
  turn_enter sig g = Next g' ->
  same_setup g g' /\ events g' = events g /\
  tree_0 g' = tree_0 g /\ tree_1 g' = tree_1 g /\
  training_data_ g' = training_data_ g /\
  game_result_ g' = UNDECIDED /\
  ComputeGameResult (GetPositionHistory (tree_0 g)) = UNDECIDED /\
  abort_set (abort_ g') = false.
Proof.
  unfold turn_enter. destruct (poll_abort sig (abort_ g)) as [a f] eqn:Hp.
  destruct a; [discriminate|].
  cbn [game_result_ with_result].
  destruct (is_undecided _) eqn:Hu; cbn [negb]; [|discriminate].
  apply is_undecided_true in Hu.
  intros [= <-]. simpl. repeat split; try assumption.
  unfold poll_abort in Hp. injection Hp as Ha <-. exact Ha.
Qed.

(** *** Lines 236-271 *)

Lemma turn_search_stop sig wt bt bm g g' :
  turn_search sig wt bt bm g = Stop g' ->
  same_setup g g' /\ moves_made g' = moves_made g /\
  game_result_ g' = game_result_ g.
Proof.
  unfold turn_search.
  set (idx := if bm then 1%nat else 0%nat).
  set (g1 := if negb (ReuseTree (option_of g idx)) then _ else g).
  assert (H1 : same_setup g g1 /\ events g1 = events g /\
               game_result_ g1 = game_result_ g).
  { unfold g1. destruct (negb _).
    - split; [apply set_tree_setup|]. split; apply set_tree_keeps.
    - repeat split. }
  clearbody g1. destruct H1 as (Hs1 & He1 & Hr1).
  destruct (poll_abort sig (abort_ g1)) as [a f].
  destruct a.
  - intros [= <-]. simpl. split; [exact Hs1|]. split; [|exact Hr1].
    unfold moves_made. simpl. now rewrite He1.
  - set (g2 := log _ _).
    destruct (RunBlocking _ _ _) as [search tree].
    set (g3 := with_counts _ _ _).
    destruct (poll_abort sig (abort_ g3)) as [a' f'].
    destruct a'; [|discriminate].
    intros [= <-].
    assert (Hs2 : same_setup g1 g2) by (repeat split).
    assert (Hs3 : same_setup g2 g3).
    { unfold g3. simpl.
      pose proof (set_tree_setup (with_search g2 search) idx tree) as H.
      unfold same_setup in *. simpl in *. exact H. }
    split.
    { eapply same_setup_trans; [exact Hs1|].
      eapply same_setup_trans; [exact Hs2|].
      unfold same_setup in *. simpl. exact Hs3. }
    pose proof (set_tree_keeps (with_search g2 search) idx tree) as (Hk1 & Hk2 & _).
    split.
    + unfold moves_made. simpl. rewrite Hk2. simpl.
      rewrite flat_map_app. simpl. rewrite app_nil_r. now rewrite He1.
    + simpl. rewrite Hk1. simpl. exact Hr1.
Qed.

Lemma turn_search_next sig wt bt bm g g' search :
  turn_search sig wt bt bm g = Next (g', search) ->
  same_setup g g' /\ moves_made g' = moves_made g /\
  game_result_ g' = game_result_ g /\
  training_data_ g' = training_data_ g /\
  search_run search /\
  exists board,
    events g' = events g ++
      [ENewSearch (if bm then 1%nat else 0%nat)
                  (make_responder (chess960_ g) (if bm then 1%nat else 0%nat) board)].
Proof.
  unfold turn_search.
  set (idx := if bm then 1%nat else 0%nat).
  set (g1 := if negb (ReuseTree (option_of g idx)) then _ else g).
  assert (H1 : same_setup g g1 /\ events g1 = events g /\
               game_result_ g1 = game_result_ g /\
               training_data_ g1 = training_data_ g).
  { unfold g1. destruct (negb _).
    - split; [apply set_tree_setup|]. repeat split; apply set_tree_keeps.
    - repeat split. }
  clearbody g1. destruct H1 as (Hs1 & He1 & Hr1 & Ht1).
  destruct (poll_abort sig (abort_ g1)) as [a f].
  destruct a; [discriminate|].
  set (g2 := log _ _).
  destruct (RunBlocking _ _ _) as [search' tree] eqn:Hrun.
  set (g3 := with_counts _ _ _).
  destruct (poll_abort sig (abort_ g3)) as [a' f'].
  destruct a'; [discriminate|].
  intros [= <- <-].
  assert (Hsr : search_run search').
  { unfold search_run. do 6 eexists. rewrite Hrun. reflexivity. }
  assert (Hs2 : same_setup g1 g2) by (repeat split).
  assert (Hs3 : same_setup g2 g3).
  { unfold g3. simpl.
    pose proof (set_tree_setup (with_search g2 search') idx tree) as H.
    unfold same_setup in *. simpl in *. exact H. }
  pose proof (set_tree_keeps (with_search g2 search') idx tree) as (Hk1 & Hk2 & _ & Hk4).
  split.
  { eapply same_setup_trans; [exact Hs1|].
    eapply same_setup_trans; [exact Hs2|].
    unfold same_setup in *. simpl. exact Hs3. }
  split; [|split; [|split; [|split]]].
  - unfold moves_made. simpl. rewrite Hk2. simpl.
    rewrite flat_map_app. simpl. rewrite app_nil_r. now rewrite He1.
  - simpl. rewrite Hk1. simpl. exact Hr1.
  - simpl. rewrite Hk4. simpl. exact Ht1.
  - exact Hsr.
  - eexists. simpl. rewrite Hk2. simpl. rewrite He1.
    destruct Hs1 as (_ & Hc & _). rewrite Hc. reflexivity.
Qed.

(** *** Lines 273-296 *)

Lemma turn_record_keeps tr bm g search :
  same_setup g (turn_record tr bm g search) /\
  events (turn_record tr bm g search) = events g /\
  game_result_ (turn_record tr bm g search) = game_result_ g /\
  tree_0 (turn_record tr bm g search) = tree_0 g /\
  tree_1 (turn_record tr bm g search) = tree_1 g.
Proof.
  unfold turn_record. destruct tr; simpl; repeat split.
Qed.

Lemma turn_record_tree tr bm g search idx :
  tree_ (turn_record tr bm g search) idx = tree_ g idx.
Proof.
  unfold tree_.
  destruct (turn_record_keeps tr bm g search) as (_ & _ & _ & -> & ->).
  reflexivity.
Qed.

(** *** Lines 326-359: the move-acceptance loop adds no move *)

Lemma accept_move_events fuel walk g idx :
  forall search ev move search' ev',
    accept_move fuel walk g idx search ev = Some (move, search', ev') ->
    exists added, ev' = ev ++ added /\ only_retries added.
Proof.
  induction fuel as [|fuel IH]; intros search ev move search' ev' H;
    [discriminate|].
  simpl in H.
  destruct (count_visits _ _ _) as [max_n cur_n].
  destruct (move_accepted _ _ _).
  - injection H as <- <- <-. exists []. split; [now rewrite app_nil_r|constructor].
  - destruct (is_undecided _).
    + destruct (GetMoves walk g) as [l|]; [|discriminate].
      apply IH in H as (added & -> & Hadd).
      exists ([EDiscarded (orig_fen_ g) (l ++ [GetBestMove search])]
              ++ [EResetBestMove] ++ added).
      split; [now rewrite <- !app_assoc|].
      constructor; [exact I|]. constructor; [exact I|exact Hadd].
    + apply IH in H as (added & -> & Hadd).
      exists ([EResetBestMove] ++ added).
      split; [now rewrite <- !app_assoc|].
      constructor; [exact I|exact Hadd].
Qed.

Lemma only_retries_no_moves ev :
  only_retries ev ->
  flat_map (fun e => match e with EMakeMove O m => [m] | _ => [] end) ev = [].
Proof.
  induction 1 as [|e ev He _ IH]; [reflexivity|].
  simpl. rewrite IH. destruct e; try contradiction; reflexivity.
Qed.

Lemma make_move_both_keeps g m :
  same_setup g (make_move_both g m) /\
  game_result_ (make_move_both g m) = game_result_ g /\
  moves_made (make_move_both g m) = moves_made g ++ [m].
Proof.
  unfold make_move_both, same_setup, trees_distinct, moves_made.
  simpl. destruct (tree_1 g); simpl; repeat split;
    rewrite ?flat_map_app; simpl; rewrite ?app_nil_r; reflexivity.
Qed.

(** *** Lines 297-364 *)

Lemma turn_finish_inv er fuel walk bm g search c :
  turn_finish er fuel walk bm g search = Some c ->
  match c with
  | Break (g', bm') =>
      bm' = bm /\ same_setup g g' /\ moves_made g' = moves_made g /\
      tree_0 g' = tree_0 g /\
      resign_decision (option_of g (if bm then 1%nat else 0%nat)) er
        (move_number_of g) bm (centered_eval (GetBestEval search))
        (eval_best_w (GetBestEval search)) (eval_best_d (GetBestEval search))
        (eval_best_l (GetBestEval search)) = Some (game_result_ g')
  | Continue (g', bm') =>
      bm' = negb bm /\ same_setup g g' /\
      game_result_ g' = game_result_ g /\
      (exists move, moves_made g' = moves_made g ++ [move]) /\
      resign_decision (option_of g (if bm then 1%nat else 0%nat)) er
        (move_number_of g) bm (centered_eval (GetBestEval search))
        (eval_best_w (GetBestEval search)) (eval_best_d (GetBestEval search))
        (eval_best_l (GetBestEval search)) = None
  end.
Proof.
  unfold turn_finish.
  destruct (resign_decision _ _ _ _ _ _ _ _) as [r|] eqn:Hr.
  - intros [= <-]. simpl. repeat split.
  - destruct (accept_move _ _ _ _ _ _) as [[[move search'] ev]|] eqn:Ha;
      [|discriminate].
    intros [= <-].
    apply accept_move_events in Ha as (added & -> & Hadd).
    pose proof (make_move_both_keeps
                  (with_events (with_search g search') (events g ++ added)) move)
      as (Hs & Hg & Hm).
    split; [reflexivity|]. split; [|split; [|split]].
    + unfold same_setup in *. simpl in *. exact Hs.
    + rewrite Hg. reflexivity.
    + exists move. rewrite Hm.
      change (with_events (with_search g search') (events g ++ added))
        with (with_events (with_search g search')
                          (events (with_search g search') ++ added)).
      rewrite moves_made_app, (only_retries_no_moves _ Hadd), app_nil_r.
      reflexivity.
    + reflexivity.
Qed.

(** *** The whole pass *)

(** A pass of the loop either leaves it, without applying a move, through
    an abort, the end of the game or a resignation; or applies one accepted
    move and goes on with the result undecided. *)
Lemma PlayTurn_inv sig wt bt tr er fuel walk g bm c :
  PlayTurn sig wt bt tr er fuel walk (g, bm) = Some c ->
  match c with
  | Break (g', bm') =>
      same_setup g g' /\ moves_made g' = moves_made g /\ bm' = bm /\
      (game_result_ g' = game_result_ g \/
       game_result_ g' = UNDECIDED \/
       (game_result_ g' = ComputeGameResult (GetPositionHistory (tree_0 g)) /\
        tree_0 g' = tree_0 g) \/
       (exists o search mv,
           o = option_of g (if bm then 1%nat else 0%nat) /\
           search_run search /\
           resign_decision o er mv bm
             (centered_eval (GetBestEval search)) (eval_best_w (GetBestEval search))
             (eval_best_d (GetBestEval search)) (eval_best_l (GetBestEval search))
           = Some (game_result_ g')))
  | Continue (g', bm') =>
      same_setup g g' /\ game_result_ g' = UNDECIDED /\ bm' = negb bm /\
      exists move, moves_made g' = moves_made g ++ [move]
  end.
Proof.
  unfold PlayTurn.
  destruct (turn_enter sig g) as [g1|g1] eqn:H1.
  { intros [= <-]. apply turn_enter_stop in H1 as (Hs & He & Ht0 & _ & Hr).
    split; [exact Hs|]. split; [unfold moves_made; now rewrite He|].
    split; [reflexivity|].
    destruct Hr as [Hr|[Hr _]]; [now left|].
    right. right. left. split; [exact Hr|exact Ht0]. }
  apply turn_enter_next in H1 as (Hs1 & He1 & _ & _ & _ & Hr1 & _).
  assert (Hm1 : moves_made g1 = moves_made g)
    by (unfold moves_made; now rewrite He1).
  destruct (turn_search sig wt bt bm g1) as [g2|[g2 search]] eqn:H2.
  { intros [= <-]. apply turn_search_stop in H2 as (Hs2 & Hm2 & Hr2).
    split; [eapply same_setup_trans; eassumption|].
    split; [congruence|]. split; [reflexivity|].
    right. left. congruence. }
  apply turn_search_next in H2 as (Hs2 & Hm2 & Hr2 & _ & Hsr & _).
  destruct (turn_record_keeps tr bm g2 search) as (Hs3 & He3 & Hr3 & _).
  assert (Hm3 : moves_made (turn_record tr bm g2 search) = moves_made g2)
    by (unfold moves_made; now rewrite He3).
  assert (Hs : same_setup g (turn_record tr bm g2 search)).
  { eapply same_setup_trans; [exact Hs1|].
    eapply same_setup_trans; [exact Hs2|exact Hs3]. }
  intros H. apply turn_finish_inv in H.
  destruct c as [[g' bm']|[g' bm']].
  - destruct H as (-> & Hs4 & Hm4 & _ & Hd).
    split; [eapply same_setup_trans; eassumption|].
    split; [congruence|]. split; [reflexivity|].
    right. right. right.
    exists (option_of g (if bm then 1%nat else 0%nat)), search,
           (move_number_of (turn_record tr bm g2 search)).
    split; [reflexivity|]. split; [exact Hsr|].
    rewrite <- (same_setup_option_of _ _ _ Hs). exact Hd.
  - destruct H as (-> & Hs4 & Hr4 & (move & Hm4) & _).
    split; [eapply same_setup_trans; eassumption|].
    split; [congruence|]. split; [reflexivity|].
    exists move. congruence.
Qed.

(** *** The responders in the log *)

Lemma responders_of_app c ev1 ev2 :
  responders_of c ev1 -> responders_of c ev2 -> responders_of c (ev1 ++ ev2).
Proof. unfold responders_of. intros. now apply Forall_app. Qed.

Lemma only_retries_responders c ev : only_retries ev -> responders_of c ev.
Proof.
  unfold only_retries, responders_of. intros H.
  eapply Forall_impl; [exact H|]. intros [] He; try contradiction; exact I.
Qed.

Lemma set_tree_chess960 g idx t : chess960_ (set_tree g idx t) = chess960_ g.
Proof. apply set_tree_setup. Qed.

Lemma turn_search_events sig wt bt bm g :
  exists added,
    responders_of (chess960_ g) added /\
    match turn_search sig wt bt bm g with
    | Stop g' => events g' = events g ++ added
    | Next (g', _) => events g' = events g ++ added
    end.
Proof.
  unfold turn_search.
  set (idx := if bm then 1%nat else 0%nat).
  set (g1 := if negb (ReuseTree (option_of g idx)) then _ else g).
  assert (H1 : chess960_ g1 = chess960_ g /\ events g1 = events g).
  { unfold g1. destruct (negb _).
    - split; [apply set_tree_chess960|apply set_tree_keeps].
    - split; reflexivity. }
  clearbody g1. destruct H1 as (Hc1 & He1).
  destruct (poll_abort sig (abort_ g1)) as [a f].
  destruct a.
  - exists []. split; [constructor|]. simpl. now rewrite app_nil_r.
  - set (g2 := log _ _).
    destruct (RunBlocking _ _ _) as [search tree].
    set (g3 := with_counts _ _ _).
    assert (He3 : events g3 = events g ++
              [ENewSearch idx (make_responder (chess960_ g) idx
                 (GetBoard (HeadPosition (tree_ (with_abort g1 f) idx))))]).
    { unfold g3. simpl.
      destruct (set_tree_keeps (with_search g2 search) idx tree) as (_ & -> & _).
      simpl. now rewrite He1, Hc1. }
    clearbody g3.
    eexists. split.
    2:{ destruct (poll_abort sig (abort_ g3)) as [a' f'].
        destruct a'; simpl; exact He3. }
    constructor; [|constructor]. eexists. reflexivity.
Qed.

Lemma PlayTurn_events sig wt bt tr er fuel walk g bm c :
  PlayTurn sig wt bt tr er fuel walk (g, bm) = Some c ->
  exists added,
    responders_of (chess960_ g) added /\
    events (fst (match c with Break s | Continue s => s end)) = events g ++ added.
Proof.
  unfold PlayTurn.
  destruct (turn_enter sig g) as [g1|g1] eqn:H1.
  { intros [= <-]. apply turn_enter_stop in H1 as (_ & He & _).
    exists []. split; [constructor|]. simpl. now rewrite app_nil_r. }
  apply turn_enter_next in H1 as (Hs1 & He1 & _).
  destruct Hs1 as (_ & Hc1 & _).
  destruct (turn_search_events sig wt bt bm g1) as (added & Hadd & Hev).
  rewrite Hc1, He1 in *.
  destruct (turn_search sig wt bt bm g1) as [g2|[g2 search]] eqn:H2.
  { intros [= <-]. exists added. split; [exact Hadd|exact Hev]. }
  destruct (turn_record_keeps tr bm g2 search) as (_ & He3 & _).
  unfold turn_finish.
  destruct (resign_decision _ _ _ _ _ _ _ _) as [r|].
  { intros [= <-]. exists added. split; [exact Hadd|].
    change (events (turn_record tr bm g2 search) = events g ++ added).
    now rewrite He3. }
  destruct (accept_move _ _ _ _ _ _) as [[[move search'] ev]|] eqn:Ha;
    [|discriminate].
  intros [= <-].
  apply accept_move_events in Ha as (retries & -> & Hret).
  unfold make_move_both. cbn [log with_trees with_events with_search tree_1 events fst].
  destruct (tree_1 (turn_record tr bm g2 search));
    cbn [log with_trees with_events with_search tree_1 events fst];
    rewrite He3, Hev.
  - exists (added ++ retries ++ [EMakeMove 0 move] ++ [EMakeMove 1 move]).
    split; [|now rewrite <- !app_assoc].
    apply responders_of_app; [exact Hadd|].
    apply responders_of_app; [now apply only_retries_responders|].
    repeat constructor.
  - exists (added ++ retries ++ [EMakeMove 0 move]).
    split; [|now rewrite <- !app_assoc].
    apply responders_of_app; [exact Hadd|].
    apply responders_of_app; [now apply only_retries_responders|].
    repeat constructor.
Qed.

(** *** The loop, a pass at a time *)

Lemma PlayLoop_step sig wt bt tr er fuel walk turns s :
  PlayLoop sig wt bt tr er fuel walk (S turns) s =
    match PlayTurn sig wt bt tr er fuel walk s with
    | Some (Break s) => Some (fst s)
    | Some (Continue s) => PlayLoop sig wt bt tr er fuel walk turns s
    | None => None
    end.
Proof. reflexivity. Qed.

Lemma PlayTrace_step sig wt bt tr er fuel walk turns s :
  PlayTrace sig wt bt tr er fuel walk (S turns) s =
    match PlayTurn sig wt bt tr er fuel walk s with
    | Some (Break s) => [fst s]
    | Some (Continue s) => fst s :: PlayTrace sig wt bt tr er fuel walk turns s
    | None => []
    end.
Proof. reflexivity. Qed.

End PlayFacts.

(** ** Resignation *)

Section Resignation.
Context {CH : Chess} {TR : Tree} {NW : Network} {SE : SearchEngine}.

Lemma centered_eval_not_below_zero e b :
  F32.valid (wl e) ->
  F32.ltb (wl e) (F32.opp F32.one) = false ->
  F32.ltb (centered_eval e) (S754_zero b) = false.
Proof.
  intros Hv Hlt. unfold centered_eval.
  apply F32Facts.sign_false_not_below_zero.
  apply (F32Facts.div_two_sign (F32.add (wl e) (F32.of_Z 1))).
  now apply F32Facts.add_one_sign.
Qed.

Lemma eqb_zero_is_zero x : F32.eqb x F32.zero = true -> exists s, x = S754_zero s.
Proof.
  destruct x as [s|s| |s m e]; simpl; intros H; try discriminate H.
  - now exists s.
  - destruct s; discriminate H.
  - destruct s; discriminate H.
Qed.

(** In absolute mode at 0 percent the test [eval < resignpct] fails. *)
Lemma resign_decision_absolute_zero o er mv bm e bw bd bl :
  ResignWDLStyle o = false ->
  F32.eqb (ResignPercentage o) F32.zero = true ->
  F32.valid (wl e) ->
  F32.ltb (wl e) (F32.opp F32.one) = false ->
  resign_decision o er mv bm (centered_eval e) bw bd bl = None.
Proof.
  intros Hstyle Hpct Hv Hlt. unfold resign_decision.
  destruct (er && _); [|reflexivity].
  rewrite Hstyle.
  apply eqb_zero_is_zero in Hpct as [s ->].
  assert (Hz : F32.div (S754_zero s) (F32.of_Z 100) = S754_zero s)
    by (destruct s; reflexivity).
  rewrite Hz, (centered_eval_not_below_zero e s Hv Hlt). reflexivity.
Qed.

(** When no search can trigger a resignation, the loop ends undecided or
    with the result of the position history. *)
Lemma PlayLoop_without_resignation sig wt bt tr er fuel walk g :
  (forall idx mv bm search,
      search_run search ->
      resign_decision (option_of g idx) er mv bm
        (centered_eval (GetBestEval search)) (eval_best_w (GetBestEval search))
        (eval_best_d (GetBestEval search)) (eval_best_l (GetBestEval search))
      = None) ->
  forall turns g0 bm g',
    same_setup g g0 ->
    game_result_ g0 = UNDECIDED ->
    PlayLoop sig wt bt tr er fuel walk turns (g0, bm) = Some g' ->
    game_result_ g' = UNDECIDED \/
    game_result_ g' = ComputeGameResult (GetPositionHistory (tree_0 g')).
Proof.
  intros Hnone.
  induction turns as [|turns IH]; intros g0 bm g' Hsetup Hres Hplay;
    [discriminate|].
  rewrite PlayLoop_step in Hplay.
  destruct (PlayTurn sig wt bt tr er fuel walk (g0, bm)) as [[[g1 bm1]|[g1 bm1]]|] eqn:Hturn;
    [| |discriminate].
  - injection Hplay as <-.
    apply PlayTurn_inv in Hturn as (_ & _ & _ & Hcase).
    destruct Hcase as [Hc|[Hc|[[Hc Ht]|(o & search & mv & -> & Hrun & Hd)]]].
    + left. congruence.
    + now left.
    + right. now rewrite Ht.
    + rewrite (same_setup_option_of _ _ _ Hsetup) in Hd.
      rewrite (Hnone _ _ _ _ Hrun) in Hd. discriminate Hd.
  - apply PlayTurn_inv in Hturn as (Hs & Hr & _ & _).
    apply (IH g1 bm1 g' (same_setup_trans _ _ _ Hsetup Hs) Hr Hplay).
Qed.

(** C8: in absolute mode with the resignation percentage at 0, and the win
    probability reported by every search the driver runs not below -1 on
    the [-1, 1] scale (so that its centred value is not below 0), the test
    [eval < resignpct] is false at every turn and [Play] never leaves the
    loop through a resignation: a game that ends decided ends with the
    result of its own position history. *)
Theorem no_resignation_at_zero_percent :
  forall (abort_signal : nat -> bool) (white_threads black_threads : Z)
         (training enable_resign : bool) (fuel walk turns : nat)
         (g g' : SelfPlayGame),
    (forall idx,
        ResignWDLStyle (option_of g idx) = false /\
        F32.eqb (ResignPercentage (option_of g idx)) F32.zero = true) ->
    (forall search,
        search_run search ->
        F32.valid (wl (GetBestEval search)) /\
        F32.ltb (wl (GetBestEval search)) (F32.opp F32.one) = false) ->
    game_result_ g = UNDECIDED ->
    (forall idx mv bm search,
        search_run search ->
        F32.ltb (centered_eval (GetBestEval search)) F32.zero = false /\
        resign_decision (option_of g idx) enable_resign mv bm
          (centered_eval (GetBestEval search)) (eval_best_w (GetBestEval search))
          (eval_best_d (GetBestEval search)) (eval_best_l (GetBestEval search))
        = None) /\
    (Play abort_signal white_threads black_threads training enable_resign
          fuel walk turns g = Some g' ->
     game_result_ g' = UNDECIDED \/
     game_result_ g' = ComputeGameResult (GetPositionHistory (tree_0 g'))).
Proof.
  intros sig wt bt tr er fuel walk turns g g' Hopt Hsearch Hres.
  assert (Hnone : forall idx mv bm search,
             search_run search ->
             resign_decision (option_of g idx) er mv bm
               (centered_eval (GetBestEval search)) (eval_best_w (GetBestEval search))
               (eval_best_d (GetBestEval search)) (eval_best_l (GetBestEval search))
             = None).
  { intros idx mv bm search Hrun.
    destruct (Hopt idx) as [Hstyle Hpct].
    destruct (Hsearch search Hrun) as [Hv Hlt].
    now apply resign_decision_absolute_zero. }
  split.
  { intros idx mv bm search Hrun. split; [|now apply Hnone].
    destruct (Hsearch search Hrun) as [Hv Hlt].
    now apply (centered_eval_not_below_zero _ false). }
  unfold Play.
  apply (PlayLoop_without_resignation sig wt bt tr er fuel walk g Hnone turns g
           (Tree_IsBlackToMove (tree_0 g)) g' (same_setup_refl g) Hres).
Qed.


End Resignation.

(** A game of the small instance, resignation enabled, both players at the
    default 0 percent in absolute mode. *)
Lemma no_resignation_at_zero_percent_witness :
  let o := default_options Toy.limits in
  let g := SelfPlayGame_new o o true (mkOpening false []) in
  exists g',
    Play Toy.never 1 1 true true 5 10 20 g = Some g' /\
    game_result_ g' = WHITE_WON /\
    (game_result_ g' = UNDECIDED \/
     game_result_ g' = ComputeGameResult (GetPositionHistory (tree_0 g'))).
Proof.
  intros o g. eexists. split; [vm_compute; reflexivity|].
  split; [reflexivity|].
  eapply (no_resignation_at_zero_percent Toy.never 1 1 true true 5 10 20 g).
  - intros [|idx]; split; reflexivity.
  - intros search (t & idx & r & st & t' & thr & ->). split; reflexivity.
  - reflexivity.
  - vm_compute. reflexivity.
Defined.



(** ** Move acceptance *)

Section Acceptance.
Context {CH : Chess} {TR : Tree} {NW : Network} {SE : SearchEngine}.

Lemma static_cast_int_small n : 0 <= n < 2 ^ 31 -> static_cast_int n = n.
Proof.
  intros H. unfold static_cast_int.
  rewrite Z.mod_small by lia. lia.
Qed.

Lemma static_cast_int_large n :
  2 ^ 31 <= n < 2 ^ 32 -> static_cast_int n = n - 2 ^ 32.
Proof.
  intros H. unfold static_cast_int.
  replace (n + 2 ^ 31) with ((n - 2 ^ 31) + 1 * 2 ^ 32) by lia.
  rewrite Z.mod_add by lia. rewrite Z.mod_small by lia. lia.
Qed.

(** While the visit count fits a signed [int], the test is the one of the
    option's description: the maximum, or at least the threshold. *)
Lemma move_accepted_iff minimum max_n cur_n :
  0 <= cur_n < 2 ^ 31 ->
  move_accepted minimum max_n cur_n = true <-> cur_n = max_n \/ minimum <= cur_n.
Proof.
  intros H. unfold move_accepted. rewrite static_cast_int_small by exact H.
  rewrite orb_true_iff, Z.eqb_eq, Z.geb_le. reflexivity.
Qed.

(** From 2^31 visits on, the converted count is negative: only the maximum
    is accepted, whatever the (non-negative) threshold. *)
Lemma move_accepted_wrapped minimum max_n cur_n :
  2 ^ 31 <= cur_n < 2 ^ 32 -> 0 <= minimum ->
  move_accepted minimum max_n cur_n = true <-> cur_n = max_n.
Proof.
  intros H Hmin. unfold move_accepted. rewrite static_cast_int_large by exact H.
  rewrite orb_true_iff, Z.eqb_eq, Z.geb_le. lia.
Qed.

Lemma count_visits_app flip move edges1 edges2 :
  count_visits flip move (edges1 ++ edges2) =
    fold_left
      (fun (acc : Z * Z) (edge : Edge) =>
         let '(max_n, cur_n) := acc in
         (if Edge_GetN edge >? max_n then Edge_GetN edge else max_n,
          if Move_eqb (Edge_GetMove edge flip) move then Edge_GetN edge else cur_n))
      edges2 (count_visits flip move edges1).
Proof. unfold count_visits. apply fold_left_app. Qed.

(** [max_n] is the largest visit count of the edges (0 without edges), and
    [cur_n] is the count of the last edge whose move is the reported one (0
    when there is none). *)
Lemma count_visits_spec flip move edges :
  (forall edge, In edge edges -> 0 <= Edge_GetN edge) ->
  let '(max_n, cur_n) := count_visits flip move edges in
  (forall edge, In edge edges -> Edge_GetN edge <= max_n) /\
  (max_n = 0 \/ exists edge, In edge edges /\ Edge_GetN edge = max_n) /\
  ((cur_n = 0 /\ forall edge, In edge edges ->
                   Move_eqb (Edge_GetMove edge flip) move = false) \/
   exists edge, In edge edges /\ Edge_GetN edge = cur_n /\
                Move_eqb (Edge_GetMove edge flip) move = true).
Proof.
  induction edges as [|edge edges IH] using rev_ind; intros Hpos.
  - simpl. split; [intros ? []|]. split; [now left|]. left. split; [reflexivity|intros ? []].
  - rewrite count_visits_app. simpl.
    destruct (count_visits flip move edges) as [max_n cur_n].
    destruct IH as (Hmax & Hex & Hcur).
    { intros e He. apply Hpos, in_or_app. now left. }
    assert (Hn : 0 <= Edge_GetN edge) by (apply Hpos, in_or_app; right; now left).
    assert (Hmax0 : 0 <= max_n).
    { destruct Hex as [->|(e & He & <-)]; [lia|]. apply Hpos, in_or_app. now left. }
    split; [|split].
    + intros e He. apply in_app_or in He as [He|[<-|[]]].
      * specialize (Hmax e He). destruct (Z.gtb_spec (Edge_GetN edge) max_n); lia.
      * destruct (Z.gtb_spec (Edge_GetN edge) max_n); lia.
    + destruct (Z.gtb_spec (Edge_GetN edge) max_n).
      * right. exists edge. split; [apply in_or_app; right; now left|reflexivity].
      * destruct Hex as [->|(e & He & <-)]; [now left|].
        right. exists e. split; [apply in_or_app; now left|reflexivity].
    + destruct (Move_eqb (Edge_GetMove edge flip) move) eqn:Heq.
      * right. exists edge. split; [apply in_or_app; right; now left|]. now split.
      * destruct Hcur as [[-> Hnone]|(e & He & <- & Hm)].
        -- left. split; [reflexivity|].
           intros e He. apply in_app_or in He as [He|[<-|[]]]; auto.
        -- right. exists e. split; [apply in_or_app; now left|]. now split.
Qed.

(** With the threshold at 0 and every visit count below 2^31, the first
    answer of the search is accepted: no retry, no discarded line. *)
Lemma accept_move_threshold_zero fuel walk g idx search ev :
  MinimumAllowedVisits (option_of g idx) = 0 ->
  (forall edge, In edge (Edges (tree_ g idx)) -> 0 <= Edge_GetN edge < 2 ^ 31) ->
  accept_move (S fuel) walk g idx search ev = Some (GetBestMove search, search, ev).
Proof.
  intros Hmin Hrange. simpl.
  pose proof (count_visits_spec (Tree_IsBlackToMove (tree_ g idx))
                (GetBestMove search) (Edges (tree_ g idx))) as Hspec.
  destruct (count_visits _ _ _) as [max_n cur_n].
  destruct Hspec as (_ & _ & Hcur).
  { intros e He. apply Hrange, He. }
  assert (Hc : 0 <= cur_n < 2 ^ 31).
  { destruct Hcur as [[-> _]|(e & He & <- & _)]; [lia|apply Hrange, He]. }
  rewrite Hmin.
  assert (Ha : move_accepted 0 max_n cur_n = true)
    by (apply move_accepted_iff; [exact Hc|right; lia]).
  now rewrite Ha.
Qed.

End Acceptance.

(** *** The example of the specification *)

(** A game of the small instance at its starting position, with the given
    visit counts on the edges of the head and threshold. *)
Example acceptance_game_moves :
  let o := mkPlayerOptions false F32.zero false 0 20 false Toy.limits in
  let g := set_tree (SelfPlayGame_new o o true (mkOpening false [])) 0
             (Toy.mkTree (false, []) [(1, 50); (2, 50); (3, 10)]) in
  accept_move 5 5 g 0 (Toy.mkSearch [3; 2; 1] Toy.eval0) []
    = Some (2, Toy.mkSearch [2; 1] Toy.eval0, [EResetBestMove]) /\
  accept_move 5 5 g 0 (Toy.mkSearch [1] Toy.eval0) []
    = Some (1, Toy.mkSearch [1] Toy.eval0, []).
Proof. split; reflexivity. Qed.

(** C1, at the input where the code departs from it: edges with 3000000000
    and 2500000000 visits, the search reports the second, the threshold is
    20.  The reported move has at least 20 visits, but [static_cast<int>]
    makes 2500000000 negative: the move is rejected, the line is reported as
    discarded, the search is reset, and the first move is accepted on the
    next pass. *)
Theorem move_acceptance_large_counts :
  let o := mkPlayerOptions false F32.zero false 0 20 false Toy.limits in
  let g := set_tree (SelfPlayGame_new o o true (mkOpening false [])) 0
             (Toy.mkTree (false, []) [(1, 3000000000); (2, 2500000000)]) in
  let search := Toy.mkSearch [2; 1] Toy.eval0 in
  count_visits false (GetBestMove search) (Edges (tree_ g 0))
    = (3000000000, 2500000000) /\
  MinimumAllowedVisits (option_of g 0) <= 2500000000 /\
  static_cast_int 2500000000 = -1794967296 /\
  move_accepted (MinimumAllowedVisits (option_of g 0)) 3000000000 2500000000 = false /\
  accept_move 1 5 g 0 search [] = None /\
  accept_move 2 5 g 0 search []
    = Some (1, Toy.mkSearch [1] Toy.eval0, [EDiscarded false [2]; EResetBestMove]).
Proof. repeat split; try reflexivity. simpl. lia. Qed.

(** C10, at the input where the code departs from it: the same edges with
    the threshold at its default 0.  Every visit count is at least 0, but the
    reported move is not accepted on the first pass: the search is asked to
    discard its answer and the discarded-line callback is called. *)
Theorem default_threshold_large_counts :
  let o := default_options Toy.limits in
  let g := set_tree (SelfPlayGame_new o o true (mkOpening false [])) 0
             (Toy.mkTree (false, []) [(1, 3000000000); (2, 2500000000)]) in
  let search := Toy.mkSearch [2; 1] Toy.eval0 in
  MinimumAllowedVisits (option_of g 0) = 0 /\
  move_accepted 0 3000000000 2500000000 = false /\
  accept_move 1 5 g 0 search [] = None /\
  accept_move 2 5 g 0 search []
    = Some (1, Toy.mkSearch [1] Toy.eval0, [EDiscarded false [2]; EResetBestMove]).
Proof. repeat split; reflexivity. Qed.

(** * Further properties of the code *)

(** ** [SelfPlayLimits::MakeSearchStopper] *)

(** A cap is in the chain exactly when it is not negative (zero is a cap);
    the chain keeps the order visits, playouts, move time, holds each kind
    at most once, and is empty exactly when all three caps are negative. *)
Theorem MakeSearchStopper_chain :
  forall (l : SelfPlayLimits),
    (forall s : SearchStopper,
        In s (MakeSearchStopper l) <->
        (s = VisitsStopper (visits l) /\ 0 <= visits l) \/
        (s = PlayoutsStopper (playouts l) /\ 0 <= playouts l) \/
        (s = TimeLimitStopper (movetime l) /\ 0 <= movetime l)) /\
    (MakeSearchStopper l = [] <->
     visits l < 0 /\ playouts l < 0 /\ movetime l < 0) /\
    (exists vs ps ts,
        MakeSearchStopper l = vs ++ ps ++ ts /\
        (vs = [] \/ vs = [VisitsStopper (visits l)]) /\
        (ps = [] \/ ps = [PlayoutsStopper (playouts l)]) /\
        (ts = [] \/ ts = [TimeLimitStopper (movetime l)])) /\
    (length (MakeSearchStopper l) <= 3)%nat.
Proof.
  intros [v p t]. unfold MakeSearchStopper. simpl.
  destruct (Z.geb_spec v 0), (Z.geb_spec p 0), (Z.geb_spec t 0); simpl.
  all: split; [intros s; split;
                [intros Hin; simpl in Hin; intuition (subst; auto 7)
                |intros [[-> ?]|[[-> ?]|[-> ?]]]; simpl; auto 6; lia]|].
  all: split; [split; [intros Hnil; try discriminate Hnil; lia|intros; try reflexivity; lia]|].
  all: split; [|lia].
  - exists [VisitsStopper v], [PlayoutsStopper p], [TimeLimitStopper t]; auto 7.
  - exists [VisitsStopper v], [PlayoutsStopper p], []; auto 7.
  - exists [VisitsStopper v], [], [TimeLimitStopper t]; auto 7.
  - exists [VisitsStopper v], [], []; auto 7.
  - exists [], [PlayoutsStopper p], [TimeLimitStopper t]; auto 7.
  - exists [], [PlayoutsStopper p], []; auto 7.
  - exists [], [], [TimeLimitStopper t]; auto 7.
  - exists [], [], []; auto 7.
Qed.

(** The limits of the small instance: a visit cap only. *)
Lemma MakeSearchStopper_chain_witness :
  MakeSearchStopper Toy.limits = [VisitsStopper 110] /\
  In (VisitsStopper 110) (MakeSearchStopper Toy.limits) /\
  MakeSearchStopper (mkSelfPlayLimits (-1) (-1) (-1)) = [].
Proof.
  split; [reflexivity|]. split.
  - apply (proj1 (MakeSearchStopper_chain Toy.limits)). left.
    split; [reflexivity|simpl; lia].
  - apply (proj1 (proj2 (MakeSearchStopper_chain (mkSelfPlayLimits (-1) (-1) (-1))))).
    simpl. lia.
Defined.

(** ** The single-game driver: construction, log and records *)

Section GameFacts.
Context {CH : Chess} {TR : Tree} {NW : Network} {SE : SearchEngine}.

(** *** The constructor, lines 204-223 *)

Lemma constructor_fold (ms : list Move) :
  forall g : SelfPlayGame,
    let g' :=
      fold_left
        (fun (g : SelfPlayGame) (m : Move) =>
           let g := with_trees g (MakeMove (tree_0 g) m) (tree_1 g) in
           match tree_1 g with
           | Some t1 => with_trees g (tree_0 g) (Some (MakeMove t1 m))
           | None => g
           end) ms g in
    tree_0 g' = fold_left MakeMove ms (tree_0 g) /\
    tree_1 g' = option_map (fold_left MakeMove ms) (tree_1 g) /\
    options_ g' = options_ g /\ chess960_ g' = chess960_ g /\
    orig_fen_ g' = orig_fen_ g /\ game_result_ g' = game_result_ g /\
    training_data_ g' = training_data_ g /\ events g' = events g /\
    abort_ g' = abort_ g /\ search_ g' = search_ g /\
    min_eval_ g' = min_eval_ g /\ max_eval_ g' = max_eval_ g /\
    move_count_ g' = move_count_ g /\ nodes_total_ g' = nodes_total_ g.
Proof.
  induction ms as [|m ms IH]; intros g; simpl.
  - destruct (tree_1 g); repeat split.
  - match goal with |- context [fold_left ?f ms ?g1] =>
      specialize (IH g1); destruct (tree_1 g) eqn:Ht1; simpl in IH |- *
    end;
    destruct IH as (H0 & H1 & H2 & H3 & H4 & H5 & H6 & H7 & H8 & H9 & H10 & H11 & H12 & H13);
    rewrite H0, H1, H2, H3, H4, H5, H6, H7, H8, H9, H10, H11, H12, H13;
    repeat split.
Qed.

(** A new game holds, in each of its trees, the starting position followed
    by the opening moves in order: one tree object when the tree is shared,
    two equal ones otherwise.  Its result is undecided, no record is captured
    and nothing has been logged. *)
Theorem SelfPlayGame_new_state :
  forall (player1 player2 : PlayerOptions) (shared_tree : bool)
         (opening : Opening),
    let g := SelfPlayGame_new player1 player2 shared_tree opening in
    let line :=
      fold_left MakeMove (moves opening) (ResetToPosition (start_fen opening)) in
    tree_0 g = line /\
    tree_1 g = (if shared_tree then None else Some line) /\
    tree_ g 0 = line /\ tree_ g 1 = line /\
    trees_distinct g = negb shared_tree /\
    options_ g = (player1, player2) /\
    orig_fen_ g = start_fen opening /\
    game_result_ g = UNDECIDED /\
    training_data_ g = [] /\ events g = [] /\
    abort_set (abort_ g) = false /\
    min_eval_ g = (F32.one, F32.one) /\
    max_eval_ g = (F32.zero, F32.zero, F32.zero).
Proof.
  intros p1 p2 shared opening g line. unfold g, SelfPlayGame_new.
  match goal with |- context [fold_left ?f (moves opening) ?g0] =>
    pose proof (constructor_fold (moves opening) g0) as H
  end.
  cbv zeta in H.
  destruct H as (H0 & H1 & H2 & H3 & H4 & H5 & H6 & H7 & H8 & H9 & H10 & H11 & _).
  unfold tree_, trees_distinct.
  rewrite H0, H1, H2, H4, H5, H6, H7, H8, H10, H11. simpl.
  fold line. destruct shared; simpl; repeat split.
Qed.

(** *** What each stretch of a pass does to the log, the records and the
    extremes *)

Lemma set_tree_more g idx t :
  min_eval_ (set_tree g idx t) = min_eval_ g /\
  max_eval_ (set_tree g idx t) = max_eval_ g /\
  trees_distinct (set_tree g idx t) = trees_distinct g.
Proof.
  unfold set_tree, trees_distinct. destruct idx, (tree_1 g); simpl; repeat split.
Qed.

Lemma turn_enter_fields sig g :
  forall g', (turn_enter sig g = Stop g' \/ turn_enter sig g = Next g') ->
  events g' = events g /\ training_data_ g' = training_data_ g /\
  min_eval_ g' = min_eval_ g /\ max_eval_ g' = max_eval_ g /\
  trees_distinct g' = trees_distinct g.
Proof.
  intros g'. unfold turn_enter.
  destruct (poll_abort sig (abort_ g)) as [a f]. destruct a.
  - intros [[= <-]|H]; [|discriminate H]. repeat split.
  - cbn [game_result_ with_result].
    destruct (negb _); intros [H|H]; try discriminate H;
      injection H as <-; repeat split.
Qed.

Lemma turn_search_fields sig wt bt bm g :
  forall g',
    (turn_search sig wt bt bm g = Stop g' \/
     exists search, turn_search sig wt bt bm g = Next (g', search)) ->
    training_data_ g' = training_data_ g /\
    min_eval_ g' = min_eval_ g /\ max_eval_ g' = max_eval_ g /\
    trees_distinct g' = trees_distinct g /\
    (events g' = events g \/ exists idx r, events g' = events g ++ [ENewSearch idx r]).
Proof.
  intros g'. unfold turn_search.
  set (idx := if bm then 1%nat else 0%nat).
  set (g1 := if negb (ReuseTree (option_of g idx)) then _ else g).
  assert (H1 : training_data_ g1 = training_data_ g /\
               min_eval_ g1 = min_eval_ g /\ max_eval_ g1 = max_eval_ g /\
               trees_distinct g1 = trees_distinct g /\ events g1 = events g).
  { unfold g1. destruct (negb _); [|repeat split].
    destruct (set_tree_keeps g idx (TrimTreeAtHead (tree_ g idx))) as (_ & He & _ & Ht).
    destruct (set_tree_more g idx (TrimTreeAtHead (tree_ g idx))) as (Hmn & Hmx & Hd).
    repeat split; assumption. }
  clearbody g1. destruct H1 as (Ht1 & Hmn1 & Hmx1 & Hd1 & He1).
  destruct (poll_abort sig (abort_ g1)) as [a f]. destruct a.
  { intros [[= <-]|[s H]]; [|discriminate H]. simpl.
    repeat split; try assumption. now left. }
  set (g2 := log _ _).
  destruct (RunBlocking _ _ _) as [search tree].
  set (g3 := with_counts _ _ _).
  assert (H3 : training_data_ g3 = training_data_ g /\
               min_eval_ g3 = min_eval_ g /\ max_eval_ g3 = max_eval_ g /\
               trees_distinct g3 = trees_distinct g /\
               exists r, events g3 = events g ++ [ENewSearch idx r]).
  { unfold g3. simpl.
    destruct (set_tree_keeps (with_search g2 search) idx tree) as (_ & He & _ & Ht).
    destruct (set_tree_more (with_search g2 search) idx tree) as (Hmn & Hmx & Hd).
    split; [rewrite Ht; exact Ht1|].
    split; [rewrite Hmn; exact Hmn1|].
    split; [rewrite Hmx; exact Hmx1|].
    split.
    - unfold trees_distinct in *. simpl. rewrite Hd. exact Hd1.
    - eexists. rewrite He. simpl. rewrite He1. reflexivity. }
  clearbody g3. destruct H3 as (Ht3 & Hmn3 & Hmx3 & Hd3 & r & He3).
  destruct (poll_abort sig (abort_ g3)) as [a' f']. destruct a'.
  - intros [[= <-]|[s H]]; [|discriminate H]. simpl.
    repeat split; try assumption. right. now exists idx, r.
  - intros [H|[s [= <- _]]]; [discriminate H|]. simpl.
    repeat split; try assumption. right. now exists idx, r.
Qed.

Lemma turn_record_fields tr bm g search :
  let g' := turn_record tr bm g search in
  let idx := if bm then 1%nat else 0%nat in
  events g' = events g /\ trees_distinct g' = trees_distinct g /\
  training_data_ g' =
    training_data_ g ++
    (if tr then
       [GetV5TrainingData (tree_ g idx) idx UNDECIDED (network_input_format idx)
          (wl (GetBestEval search)) (d (GetBestEval search)) (ml (GetBestEval search))]
     else []) /\
  min_eval_ g' = set_min_eval (min_eval_ g) idx (centered_eval (GetBestEval search)) /\
  max_eval_ g' = set_max_eval (max_eval_ g) bm (eval_best_w (GetBestEval search))
                   (eval_best_d (GetBestEval search)) (eval_best_l (GetBestEval search)).
Proof.
  unfold turn_record. destruct tr; simpl; repeat split.
  now rewrite app_nil_r.
Qed.

Lemma moves_on_app k ev1 ev2 :
  moves_on k (ev1 ++ ev2) = moves_on k ev1 ++ moves_on k ev2.
Proof. unfold moves_on. apply flat_map_app. Qed.

Lemma only_retries_moves_on k ev : only_retries ev -> moves_on k ev = [].
Proof.
  induction 1 as [|e ev He _ IH]; [reflexivity|].
  unfold moves_on in *. simpl. rewrite IH.
  destruct e; try contradiction; reflexivity.
Qed.

Lemma moves_made_moves_on g :
  moves_made g = moves_on 0 (events g).
Proof.
  unfold moves_made, moves_on. induction (events g) as [|e ev IH]; [reflexivity|].
  simpl. rewrite IH. destruct e as [| [|k] m | |]; reflexivity.
Qed.

Lemma turn_finish_fields er fuel walk bm g search c :
  turn_finish er fuel walk bm g search = Some c ->
  let g' := fst (match c with Break s | Continue s => s end) in
  training_data_ g' = training_data_ g /\
  min_eval_ g' = min_eval_ g /\ max_eval_ g' = max_eval_ g /\
  exists added,
    events g' = events g ++ added /\
    moves_on 1 added = (if trees_distinct g then moves_on 0 added else []) /\
    match c with
    | Break _ => added = []
    | Continue _ => exists m, moves_on 0 added = [m]
    end.
Proof.
  unfold turn_finish.
  destruct (resign_decision _ _ _ _ _ _ _ _) as [r|].
  - intros [= <-]. simpl. repeat split. exists []. rewrite app_nil_r.
    repeat split. now destruct (trees_distinct g).
  - destruct (accept_move _ _ _ _ _ _) as [[[move search'] ev]|] eqn:Ha;
      [|discriminate].
    intros [= <-].
    apply accept_move_events in Ha as (retries & -> & Hret).
    unfold make_move_both, trees_distinct.
    cbn [log with_trees with_events with_search tree_1 events fst
         training_data_ min_eval_ max_eval_].
    destruct (tree_1 g);
      cbn [log with_trees with_events with_search tree_1 events fst
           training_data_ min_eval_ max_eval_];
      repeat split.
    + exists (retries ++ [EMakeMove 0 move] ++ [EMakeMove 1 move]).
      rewrite <- !app_assoc. split; [reflexivity|].
      rewrite !moves_on_app, !(only_retries_moves_on _ _ Hret). simpl.
      split; [reflexivity|]. now exists move.
    + exists (retries ++ [EMakeMove 0 move]).
      rewrite <- !app_assoc. split; [reflexivity|].
      rewrite !moves_on_app, !(only_retries_moves_on _ _ Hret). simpl.
      split; [reflexivity|]. now exists move.
Qed.

(** One pass: what it appends to the log and to the records. *)
Lemma PlayTurn_log sig wt bt tr er fuel walk g bm c :
  PlayTurn sig wt bt tr er fuel walk (g, bm) = Some c ->
  let g' := fst (match c with Break s | Continue s => s end) in
  (exists added,
      events g' = events g ++ added /\
      moves_on 1 added = (if trees_distinct g then moves_on 0 added else []) /\
      match c with
      | Break _ => moves_on 0 added = []
      | Continue _ => exists m, moves_on 0 added = [m]
      end) /\
  (exists recs,
      training_data_ g' = training_data_ g ++ recs /\
      Forall captured_undecided recs /\
      (tr = false -> recs = []) /\
      match c with
      | Break _ => (length recs <= 1)%nat
      | Continue _ => tr = true -> length recs = 1%nat
      end) /\
  (min_eval_ g' = min_eval_ g /\ max_eval_ g' = max_eval_ g \/
   exists search,
     min_eval_ g' = set_min_eval (min_eval_ g) (if bm then 1%nat else 0%nat)
                      (centered_eval (GetBestEval search)) /\
     max_eval_ g' = set_max_eval (max_eval_ g) bm (eval_best_w (GetBestEval search))
                      (eval_best_d (GetBestEval search)) (eval_best_l (GetBestEval search))).
Proof.
  unfold PlayTurn.
  destruct (turn_enter sig g) as [g1|g1] eqn:H1.
  { intros [= <-]. cbn [fst].
    destruct (turn_enter_fields sig g g1 (or_introl H1)) as (He & Ht & Hmn & Hmx & _).
    split; [|split].
    - exists []. rewrite app_nil_r. repeat split; [exact He|].
      now destruct (trees_distinct g).
    - exists []. rewrite app_nil_r. repeat split; [exact Ht|constructor|simpl; lia].
    - left. now split. }
  destruct (turn_enter_fields sig g g1 (or_intror H1)) as (He1 & Ht1 & Hmn1 & Hmx1 & Hd1).
  destruct (turn_search sig wt bt bm g1) as [g2|[g2 search]] eqn:H2.
  { intros [= <-]. cbn [fst].
    destruct (turn_search_fields sig wt bt bm g1 g2 (or_introl H2))
      as (Ht2 & Hmn2 & Hmx2 & _ & He2).
    split; [|split].
    - destruct He2 as [He2|(idx & r & He2)].
      + exists []. rewrite app_nil_r. split; [congruence|].
        split; [now destruct (trees_distinct g)|reflexivity].
      + exists [ENewSearch idx r]. split; [congruence|].
        split; [now destruct (trees_distinct g)|reflexivity].
    - exists []. rewrite app_nil_r.
      repeat split; [congruence|constructor|simpl; lia].
    - left. split; congruence. }
  destruct (turn_search_fields sig wt bt bm g1 g2
              (or_intror (ex_intro _ search H2)))
    as (Ht2 & Hmn2 & Hmx2 & Hd2 & He2).
  destruct (turn_record_fields tr bm g2 search) as (He3 & Hd3 & Ht3 & Hmn3 & Hmx3).
  intros H. apply turn_finish_fields in H.
  cbv zeta in H. destruct H as (Ht4 & Hmn4 & Hmx4 & added & He4 & Hlock & Hc).
  cbv zeta. split; [|split].
  - assert (Hpre : exists pre, events g2 = events g ++ pre /\
                               moves_on 0 pre = [] /\ moves_on 1 pre = []).
    { destruct He2 as [He2|(idx & r & He2)].
      - exists []. rewrite app_nil_r. split; [congruence|]. now split.
      - exists [ENewSearch idx r]. split; [congruence|]. now split. }
    destruct Hpre as (pre & Hpre & Hp0 & Hp1).
    exists (pre ++ added). rewrite He4, He3, Hpre, <- app_assoc.
    split; [reflexivity|].
    rewrite !moves_on_app, Hp0, Hp1. simpl.
    rewrite Hd3, Hd2, Hd1 in Hlock. split; [exact Hlock|].
    destruct c; [now subst added|exact Hc].
  - exists (if tr then
              [GetV5TrainingData (tree_ g2 (if bm then 1%nat else 0%nat))
                 (if bm then 1%nat else 0%nat) UNDECIDED
                 (network_input_format (if bm then 1%nat else 0%nat))
                 (wl (GetBestEval search)) (d (GetBestEval search))
                 (ml (GetBestEval search))]
            else []).
    split; [rewrite Ht4, Ht3; congruence|].
    split; [|split].
    + destruct tr; constructor; [|constructor].
      unfold captured_undecided. do 6 eexists. reflexivity.
    + intros ->. reflexivity.
    + destruct c; [destruct tr; simpl; lia|intros ->; reflexivity].
  - right. exists search. rewrite Hmn4, Hmx4, Hmn3, Hmx3. split; congruence.
Qed.

End GameFacts.

(** ** The single-game driver: whole runs of [Play] *)

Section RunFacts.
Context {CH : Chess} {TR : Tree} {NW : Network} {SE : SearchEngine}.

(** A relation that every pass respects, and that is reflexive and
    transitive, holds between the object [Play] starts from and the one it
    leaves. *)
Lemma PlayLoop_relates (R : SelfPlayGame -> SelfPlayGame -> Prop)
    sig wt bt tr er fuel walk :
  (forall g, R g g) ->
  (forall g1 g2 g3, R g1 g2 -> R g2 g3 -> R g1 g3) ->
  (forall g bm c,
      PlayTurn sig wt bt tr er fuel walk (g, bm) = Some c ->
      R g (fst (match c with Break s | Continue s => s end))) ->
  forall turns g bm g',
    PlayLoop sig wt bt tr er fuel walk turns (g, bm) = Some g' -> R g g'.
Proof.
  intros Hrefl Htrans Hstep.
  induction turns as [|turns IH]; intros g bm g' Hplay; [discriminate|].
  rewrite PlayLoop_step in Hplay.
  destruct (PlayTurn sig wt bt tr er fuel walk (g, bm)) as [[[g1 bm1]|[g1 bm1]]|] eqn:Hturn;
    [| |discriminate].
  - injection Hplay as <-. apply (Hstep _ _ _ Hturn).
  - eapply Htrans; [apply (Hstep _ _ _ Hturn)|]. apply (IH _ _ _ Hplay).
Qed.

(** *** Lockstep of the two trees, lines 361-362 *)

(** Over a run of [Play] the moves applied to [tree_[1]] are, when the two
    trees are distinct objects, exactly the moves applied to [tree_[0]], in
    the same order; a shared tree receives each move once. *)
Theorem Play_moves_in_lockstep :
  forall (abort_signal : nat -> bool) (white_threads black_threads : Z)
         (training enable_resign : bool) (fuel walk turns : nat)
         (g g' : SelfPlayGame),
    Play abort_signal white_threads black_threads training enable_resign
         fuel walk turns g = Some g' ->
    exists added,
      events g' = events g ++ added /\
      moves_made g' = moves_made g ++ moves_on 0 added /\
      moves_on 1 added = (if trees_distinct g then moves_on 0 added else []) /\
      trees_distinct g' = trees_distinct g.
Proof.
  intros sig wt bt tr er fuel walk turns g g' Hplay. unfold Play in Hplay.
  apply (PlayLoop_relates
           (fun g g' =>
              exists added,
                events g' = events g ++ added /\
                moves_made g' = moves_made g ++ moves_on 0 added /\
                moves_on 1 added = (if trees_distinct g then moves_on 0 added else []) /\
                trees_distinct g' = trees_distinct g)
           sig wt bt tr er fuel walk) in Hplay; [exact Hplay| | |].
  - intros g0. exists []. rewrite !app_nil_r. repeat split.
    now destruct (trees_distinct g0).
  - intros g1 g2 g3 (a1 & He1 & Hm1 & Hl1 & Hd1) (a2 & He2 & Hm2 & Hl2 & Hd2).
    exists (a1 ++ a2). rewrite He2, He1, Hm2, Hm1, !moves_on_app, <- !app_assoc.
    repeat split; [|congruence].
    rewrite Hl1, Hl2, Hd1. now destruct (trees_distinct g1).
  - intros g0 bm c Hturn.
    pose proof (PlayTurn_log _ _ _ _ _ _ _ _ _ _ Hturn) as [(added & He & Hl & _) _].
    pose proof (PlayTurn_inv _ _ _ _ _ _ _ _ _ _ Hturn) as Hinv.
    exists added. split; [exact He|]. split; [|split; [exact Hl|]].
    + rewrite !moves_made_moves_on, He. apply moves_on_app.
    + destruct c as [[g1 b1]|[g1 b1]]; destruct Hinv as ((_ & _ & _ & Hd) & _);
        exact Hd.
Qed.

(** *** Training records, lines 273-285 *)

(** Without training no record is captured, so a game that started with
    none hands nothing to the writer. *)
Theorem Play_without_training :
  forall (abort_signal : nat -> bool) (white_threads black_threads : Z)
         (enable_resign : bool) (fuel walk turns : nat) (g g' : SelfPlayGame),
    Play abort_signal white_threads black_threads false enable_resign
         fuel walk turns g = Some g' ->
    training_data_ g' = training_data_ g /\
    (training_data_ g = [] ->
     WriteTrainingData (game_result_ g') (training_data_ g') = []).
Proof.
  intros sig wt bt er fuel walk turns g g' Hplay. unfold Play in Hplay.
  assert (H : training_data_ g' = training_data_ g).
  { apply (PlayLoop_relates (fun g g' => training_data_ g' = training_data_ g)
             sig wt bt false er fuel walk) in Hplay; [exact Hplay| | |].
    - reflexivity.
    - intros; congruence.
    - intros g0 bm c Hturn.
      pose proof (PlayTurn_log _ _ _ _ _ _ _ _ _ _ Hturn)
        as (_ & (recs & Ht & _ & Hnone & _) & _).
      rewrite Ht, (Hnone eq_refl). apply app_nil_r. }
  split; [exact H|]. intros Hnil. rewrite H, Hnil. reflexivity.
Qed.

(** With training, every applied move leaves one record, captured with
    the result still undecided; at most one more record exists, for the
    position at which the loop was left. *)
Theorem Play_with_training :
  forall (abort_signal : nat -> bool) (white_threads black_threads : Z)
         (enable_resign : bool) (fuel walk turns : nat) (g g' : SelfPlayGame),
    Play abort_signal white_threads black_threads true enable_resign
         fuel walk turns g = Some g' ->
    exists recs line,
      training_data_ g' = training_data_ g ++ recs /\
      moves_made g' = moves_made g ++ line /\
      Forall captured_undecided recs /\
      (length line <= length recs <= S (length line))%nat.
Proof.
  intros sig wt bt er fuel walk turns g g'. unfold Play.
  generalize (Tree_IsBlackToMove (tree_0 g)) as bm. revert g.
  induction turns as [|turns IH]; intros g bm Hplay; [discriminate|].
  rewrite PlayLoop_step in Hplay.
  destruct (PlayTurn sig wt bt true er fuel walk (g, bm)) as [[[g1 bm1]|[g1 bm1]]|] eqn:Hturn;
    [| |discriminate].
  - injection Hplay as <-.
    pose proof (PlayTurn_log _ _ _ _ _ _ _ _ _ _ Hturn)
      as ((added & He & _ & Hm) & (recs & Ht & Hcap & _ & Hlen) & _).
    cbn [fst] in *. exists recs, [].
    split; [exact Ht|]. split.
    + rewrite !moves_made_moves_on, He, moves_on_app, Hm. reflexivity.
    + split; [exact Hcap|simpl; lia].
  - pose proof (PlayTurn_log _ _ _ _ _ _ _ _ _ _ Hturn)
      as ((added & He & _ & (m & Hm)) & (recs & Ht & Hcap & _ & Hlen) & _).
    cbn [fst] in *. specialize (Hlen eq_refl).
    destruct (IH g1 bm1 Hplay) as (recs' & line' & Ht' & Hm' & Hcap' & Hlen').
    exists (recs ++ recs'), ([m] ++ line').
    split; [rewrite Ht', Ht; now rewrite app_assoc|].
    split.
    + rewrite Hm', !moves_made_moves_on, He, moves_on_app, Hm.
      now rewrite <- app_assoc.
    + split; [now apply Forall_app|].
      rewrite !length_app, Hlen. simpl. lia.
Qed.

(** *** The abort flag, lines 230 and 242-244 *)

(** When [Abort()] has been called before [Play] first reads the flag,
    [Play] returns at once: nothing but the flag differs in the object; no
    search is constructed and no move applied.  Inside a pass, an abort seen
    in the locked section stops the pass before a search is constructed. *)
Theorem Play_aborted_at_entry :
  forall (abort_signal : nat -> bool) (white_threads black_threads : Z)
         (training enable_resign : bool) (fuel walk turns : nat)
         (g : SelfPlayGame),
    abort_set (abort_ g) = true \/ abort_signal (abort_polls (abort_ g)) = true ->
    Play abort_signal white_threads black_threads training enable_resign
         fuel walk (S turns) g
      = Some (with_abort g (mkAbortFlag true (S (abort_polls (abort_ g))))) /\
    forall bm, exists g',
      turn_search abort_signal white_threads black_threads bm g = Stop g' /\
      events g' = events g /\ search_ g' = search_ g /\
      game_result_ g' = game_result_ g /\ abort_set (abort_ g') = true.
Proof.
  intros sig wt bt tr er fuel walk turns g Habort.
  assert (Hpoll : forall a, abort_ g = a ->
                  poll_abort sig a = (true, mkAbortFlag true (S (abort_polls a)))).
  { intros a <-. unfold poll_abort.
    assert (Hor : abort_set (abort_ g) || sig (abort_polls (abort_ g)) = true)
      by (apply orb_true_iff; exact Habort).
    now rewrite Hor. }
  split.
  - unfold Play. rewrite PlayLoop_step. unfold PlayTurn, turn_enter.
    rewrite (Hpoll _ eq_refl). reflexivity.
  - intros bm. unfold turn_search.
    set (idx := if bm then 1%nat else 0%nat).
    set (g1 := if negb (ReuseTree (option_of g idx)) then _ else g).
    assert (H1 : abort_ g1 = abort_ g /\ events g1 = events g /\
                 search_ g1 = search_ g /\ game_result_ g1 = game_result_ g).
    { unfold g1. destruct (negb _); [|repeat split].
      destruct (set_tree_keeps g idx (TrimTreeAtHead (tree_ g idx)))
        as (Hr & He & Ha & _).
      repeat split; try assumption.
      unfold set_tree. destruct idx, (tree_1 g); reflexivity. }
    clearbody g1. destruct H1 as (Ha1 & He1 & Hs1 & Hr1).
    rewrite (Hpoll (abort_ g1) (eq_sym Ha1)).
    eexists. split; [reflexivity|]. simpl. repeat split; assumption.
Qed.

(** *** A run that is never aborted ends decided *)

Lemma poll_never_aborted sig a :
  never_aborted sig a ->
  exists a', poll_abort sig a = (false, a') /\ never_aborted sig a'.
Proof.
  intros [Hset Hsig]. unfold poll_abort. rewrite Hset, Hsig. simpl.
  eexists. split; [reflexivity|]. split; [reflexivity|exact Hsig].
Qed.

Lemma resign_decision_decided o er mv bm e bw bd bl r :
  resign_decision o er mv bm e bw bd bl = Some r -> r <> UNDECIDED.
Proof.
  unfold resign_decision.
  destruct (er && _); [|discriminate].
  destruct (ResignWDLStyle o).
  - destruct (F32.gtb bw _); [intros [= <-]; destruct bm; discriminate|].
    destruct (F32.gtb bl _); [intros [= <-]; destruct bm; discriminate|].
    destruct (F32.gtb bd _); [intros [= <-]; discriminate|discriminate].
  - destruct (F32.ltb e _); [intros [= <-]; destruct bm; discriminate|discriminate].
Qed.

Lemma turn_enter_quiet sig g :
  never_aborted sig (abort_ g) ->
  (exists g', turn_enter sig g = Stop g' /\
              game_result_ g' = ComputeGameResult (GetPositionHistory (tree_0 g')) /\
              game_result_ g' <> UNDECIDED) \/
  (exists g', turn_enter sig g = Next g' /\ never_aborted sig (abort_ g')).
Proof.
  intros Hq. unfold turn_enter.
  destruct (poll_never_aborted sig _ Hq) as (a' & -> & Hq').
  cbn [game_result_ with_result].
  destruct (is_undecided _) eqn:Hu; cbn [negb].
  - right. eexists. split; [reflexivity|]. exact Hq'.
  - left. eexists. split; [reflexivity|]. simpl. split; [reflexivity|].
    now apply is_undecided_false.
Qed.

Lemma turn_search_quiet sig wt bt bm g :
  never_aborted sig (abort_ g) ->
  exists g' search,
    turn_search sig wt bt bm g = Next (g', search) /\
    never_aborted sig (abort_ g').
Proof.
  intros Hq. unfold turn_search.
  set (idx := if bm then 1%nat else 0%nat).
  set (g1 := if negb (ReuseTree (option_of g idx)) then _ else g).
  assert (H1 : abort_ g1 = abort_ g).
  { unfold g1. destruct (negb _); [|reflexivity]. apply set_tree_keeps. }
  clearbody g1. rewrite <- H1 in Hq.
  destruct (poll_never_aborted sig _ Hq) as (a' & -> & Hq').
  set (g2 := log _ _).
  destruct (RunBlocking _ _ _) as [search tree].
  set (g3 := with_counts _ _ _).
  assert (H3 : abort_ g3 = a').
  { unfold g3. simpl.
    destruct (set_tree_keeps (with_search g2 search) idx tree) as (_ & _ & -> & _).
    reflexivity. }
  clearbody g3. rewrite <- H3 in Hq'.
  destruct (poll_never_aborted sig _ Hq') as (a'' & -> & Hq'').
  do 2 eexists. split; [reflexivity|]. exact Hq''.
Qed.

Lemma PlayTurn_quiet sig wt bt tr er fuel walk g bm c :
  never_aborted sig (abort_ g) ->
  PlayTurn sig wt bt tr er fuel walk (g, bm) = Some c ->
  match c with
  | Break (g', _) => game_result_ g' <> UNDECIDED
  | Continue (g', _) => never_aborted sig (abort_ g')
  end.
Proof.
  intros Hq. unfold PlayTurn.
  destruct (turn_enter_quiet sig g Hq) as [(g1 & -> & _ & Hne)|(g1 & -> & Hq1)].
  { intros [= <-]. exact Hne. }
  destruct (turn_search_quiet sig wt bt bm g1 Hq1) as (g2 & search & -> & Hq2).
  unfold turn_finish.
  destruct (resign_decision _ _ _ _ _ _ _ _) as [r|] eqn:Hr.
  - intros [= <-]. simpl. eapply resign_decision_decided, Hr.
  - destruct (accept_move _ _ _ _ _ _) as [[[move search'] ev]|]; [|discriminate].
    intros [= <-].
    assert (Ha : abort_ (turn_record tr bm g2 search) = abort_ g2)
      by (unfold turn_record; destruct tr; reflexivity).
    unfold make_move_both.
    cbn [log with_trees with_events with_search tree_1 abort_ events].
    destruct (tree_1 (turn_record tr bm g2 search));
      cbn [log with_trees with_events with_search tree_1 abort_ events];
      rewrite Ha; exact Hq2.
Qed.

(** When no abort is ever requested, every run of [Play] that returns
    leaves the game decided: White won, Black won or a draw. *)
Theorem Play_ends_decided :
  forall (abort_signal : nat -> bool) (white_threads black_threads : Z)
         (training enable_resign : bool) (fuel walk turns : nat)
         (g g' : SelfPlayGame),
    never_aborted abort_signal (abort_ g) ->
    Play abort_signal white_threads black_threads training enable_resign
         fuel walk turns g = Some g' ->
    game_result_ g' = WHITE_WON \/ game_result_ g' = BLACK_WON \/
    game_result_ g' = DRAW.
Proof.
  intros sig wt bt tr er fuel walk turns g g' Hq Hplay.
  assert (Hne : game_result_ g' <> UNDECIDED).
  { unfold Play in Hplay. revert Hq Hplay.
    generalize (Tree_IsBlackToMove (tree_0 g)) as bm. revert g.
    induction turns as [|turns IH]; intros g bm Hq Hplay; [discriminate|].
    rewrite PlayLoop_step in Hplay.
    destruct (PlayTurn sig wt bt tr er fuel walk (g, bm)) as [[[g1 bm1]|[g1 bm1]]|] eqn:Hturn;
      [| |discriminate].
    - injection Hplay as <-. apply (PlayTurn_quiet _ _ _ _ _ _ _ _ _ _ Hq Hturn).
    - apply (IH g1 bm1); [|exact Hplay].
      apply (PlayTurn_quiet _ _ _ _ _ _ _ _ _ _ Hq Hturn). }
  destruct (game_result_ g'); auto. congruence.
Qed.

End RunFacts.

Lemma Play_moves_in_lockstep_witness :
  let o := mkPlayerOptions false F32.zero false 0 20 false Toy.limits in
  let g := SelfPlayGame_new o o false (mkOpening true [-7]) in
  exists g' added,
    Play Toy.never 1 1 true false 5 10 20 g = Some g' /\
    events g' = events g ++ added /\
    moves_on 0 added = [2; -2; 2; -2; 2] /\
    moves_on 1 added = moves_on 0 added.
Proof.
  intros o g.
  destruct (Play Toy.never 1 1 true false 5 10 20 g) as [g'|] eqn:Hplay;
    [|vm_compute in Hplay; discriminate Hplay].
  destruct (Play_moves_in_lockstep _ _ _ _ _ _ _ _ _ _ Hplay)
    as (added & He & _ & Hl & _).
  exists g', added. split; [reflexivity|]. split; [exact He|].
  assert (Hg : Some g' = Play Toy.never 1 1 true false 5 10 20 g)
    by (symmetry; exact Hplay).
  vm_compute in Hg. injection Hg as ->.
  simpl in He. subst added. split; [reflexivity|exact Hl].
Defined.

Lemma Play_without_training_witness :
  let o := default_options Toy.limits in
  let g := SelfPlayGame_new o o true (mkOpening false []) in
  exists g',
    Play Toy.never 1 1 false false 5 10 20 g = Some g' /\
    training_data_ g' = [] /\
    WriteTrainingData (game_result_ g') (training_data_ g') = [].
Proof.
  intros o g.
  destruct (Play Toy.never 1 1 false false 5 10 20 g) as [g'|] eqn:Hplay;
    [|vm_compute in Hplay; discriminate Hplay].
  exists g'. split; [reflexivity|].
  destruct (Play_without_training _ _ _ _ _ _ _ _ _ Hplay) as [Ht Hw].
  split; [exact Ht|apply Hw; reflexivity].
Defined.

Lemma Play_with_training_witness :
  let o := mkPlayerOptions false F32.zero false 0 20 false Toy.limits in
  let g := SelfPlayGame_new o o true (mkOpening false []) in
  exists g' recs line,
    Play Toy.never 1 1 true false 5 10 20 g = Some g' /\
    training_data_ g' = training_data_ g ++ recs /\
    moves_made g' = moves_made g ++ line /\
    (length line <= length recs <= S (length line))%nat.
Proof.
  intros o g.
  destruct (Play Toy.never 1 1 true false 5 10 20 g) as [g'|] eqn:Hplay;
    [|vm_compute in Hplay; discriminate Hplay].
  destruct (Play_with_training _ _ _ _ _ _ _ _ _ Hplay)
    as (recs & line & Ht & Hm & _ & Hlen).
  exists g', recs, line. split; [reflexivity|]. split; [exact Ht|].
  split; [exact Hm|exact Hlen].
Defined.

Lemma Play_ends_decided_witness :
  let o := default_options Toy.limits in
  let g := SelfPlayGame_new o o true (mkOpening false []) in
  exists g',
    Play Toy.never 1 1 true true 5 10 20 g = Some g' /\
    (game_result_ g' = WHITE_WON \/ game_result_ g' = BLACK_WON \/
     game_result_ g' = DRAW).
Proof.
  intros o g.
  destruct (Play Toy.never 1 1 true true 5 10 20 g) as [g'|] eqn:Hplay;
    [|vm_compute in Hplay; discriminate Hplay].
  exists g'. split; [reflexivity|].
  apply (Play_ends_decided Toy.never 1 1 true true 5 10 20 g g');
    [split; [reflexivity|intros n; reflexivity]|exact Hplay].
Defined.

Lemma Play_aborted_at_entry_witness :
  let o := default_options Toy.limits in
  let g := SelfPlayGame_new o o true (mkOpening false []) in
  let g' := with_abort g (mkAbortFlag true 1) in
  Play (fun _ => true) 1 1 true true 5 10 1 g = Some g' /\
  events g' = [] /\ tree_0 g' = tree_0 g /\ game_result_ g' = UNDECIDED.
Proof.
  intros o g g'. split; [|repeat split].
  apply (proj1 (Play_aborted_at_entry (fun _ => true) 1 1 true true 5 10 0 g
                  (or_intror eq_refl))).
Defined.


(** ** The running extremes and [GetWorstEvalForWinnerOrDraw] *)

Lemma F32_leb_refl a : F32.is_nan a = false -> F32.leb a a = true.
Proof.
  intros Ha. apply (F32Facts.leb_key a a Ha Ha).
  unfold F32Facts.key_le. destruct (F32Facts.key a) as [[k1 k2] k3]. lia.
Qed.

(** [std::max(m, x)] is a number not below [m], when [m] is a number. *)
Lemma F32_max_widens m x :
  F32.is_nan m = false ->
  F32.is_nan (F32.max m x) = false /\ F32.leb m (F32.max m x) = true.
Proof.
  intros Hm. unfold F32.max. destruct (F32.ltb m x) eqn:Hlt.
  - split; [apply (F32Facts.ltb_not_nan _ _ Hlt)|now apply F32Facts.ltb_leb].
  - split; [exact Hm|now apply F32_leb_refl].
Qed.

(** [if (eval < m) m = eval] leaves a number not above [m]. *)
Lemma F32_lower_narrows m x :
  F32.is_nan m = false ->
  F32.is_nan (if F32.ltb x m then x else m) = false /\
  F32.leb (if F32.ltb x m then x else m) m = true.
Proof.
  intros Hm. destruct (F32.ltb x m) eqn:Hlt.
  - split; [apply (F32Facts.ltb_not_nan _ _ Hlt)|now apply F32Facts.ltb_leb].
  - split; [exact Hm|now apply F32_leb_refl].
Qed.

Section Extremes.
Context {CH : Chess} {TR : Tree} {NW : Network} {SE : SearchEngine}.

Lemma extremes_step (g g' : SelfPlayGame) idx bm eval bw bd bl :
  extremes_are_numbers g ->
  min_eval_ g' = set_min_eval (min_eval_ g) idx eval ->
  max_eval_ g' = set_max_eval (max_eval_ g) bm bw bd bl ->
  extremes_are_numbers g' /\ extremes_widened g g'.
Proof.
  unfold extremes_are_numbers, extremes_widened.
  intros (H1 & H2 & H3 & H4 & H5) Hmn Hmx. rewrite Hmn, Hmx.
  destruct (min_eval_ g) as [a b], (max_eval_ g) as [[x y] z].
  simpl in *. unfold set_min_eval.
  destruct (F32_max_widens x (if bm then bl else bw) H3) as [Hx1 Hx2].
  destruct (F32_max_widens y bd H4) as [Hy1 Hy2].
  destruct (F32_max_widens z (if bm then bw else bl) H5) as [Hz1 Hz2].
  destruct (F32_lower_narrows a eval H1) as [Ha1 Ha2].
  destruct (F32_lower_narrows b eval H2) as [Hb1 Hb2].
  destruct idx; simpl; repeat split; auto using F32_leb_refl.
Qed.

(** Over a run of [Play] the tracked minima of the centred evaluation
    never increase and the three tracked maxima never decrease, and all of
    them stay numbers, whatever the searches report. *)
Theorem Play_widens_extremes :
  forall (abort_signal : nat -> bool) (white_threads black_threads : Z)
         (training enable_resign : bool) (fuel walk turns : nat)
         (g g' : SelfPlayGame),
    extremes_are_numbers g ->
    Play abort_signal white_threads black_threads training enable_resign
         fuel walk turns g = Some g' ->
    extremes_are_numbers g' /\ extremes_widened g g'.
Proof.
  intros sig wt bt tr er fuel walk turns g g' Hnum Hplay. unfold Play in Hplay.
  refine (PlayLoop_relates
            (fun g g' => extremes_are_numbers g ->
                         extremes_are_numbers g' /\ extremes_widened g g')
            sig wt bt tr er fuel walk _ _ _ turns g _ g' Hplay Hnum).
  - intros g0 (H1 & H2 & H3 & H4 & H5). split; [repeat split; assumption|].
    unfold extremes_widened. repeat split; now apply F32_leb_refl.
  - intros g1 g2 g3 H12 H23 Hn1.
    destruct (H12 Hn1) as (Hn2 & A1 & A2 & A3 & A4 & A5).
    destruct (H23 Hn2) as (Hn3 & B1 & B2 & B3 & B4 & B5).
    split; [exact Hn3|].
    unfold extremes_widened.
    repeat split; eapply F32Facts.leb_trans; eassumption.
  - intros g0 bm c Hturn Hn.
    pose proof (PlayTurn_log _ _ _ _ _ _ _ _ _ _ Hturn) as (_ & _ & Hev).
    cbv zeta in Hev. destruct Hev as [[Hmn Hmx]|(search & Hmn & Hmx)].
    + unfold extremes_are_numbers, extremes_widened. rewrite Hmn, Hmx.
      destruct Hn as (H1 & H2 & H3 & H4 & H5).
      repeat split; auto using F32_leb_refl.
    + eapply extremes_step; eassumption.
Qed.

(** [GetWorstEvalForWinnerOrDraw] returns, in absolute style, a value not
    above the minimum of the side it reports on (of both sides when the game
    is not won), and, in WDL style, a value not below either of the two
    maxima it is taken from.  For a game played from a new object this value
    is at most 1.0 in absolute style and at least 0.0 in WDL style. *)
Theorem GetWorstEvalForWinnerOrDraw_bounds :
  forall (g : SelfPlayGame),
    extremes_are_numbers g ->
    let worst := GetWorstEvalForWinnerOrDraw g in
    let style := ResignWDLStyle (option_of g 0) in
    (style = false -> game_result_ g = WHITE_WON -> worst = fst (min_eval_ g)) /\
    (style = false -> game_result_ g = BLACK_WON -> worst = snd (min_eval_ g)) /\
    (style = false -> game_result_ g <> WHITE_WON -> game_result_ g <> BLACK_WON ->
     F32.leb worst (fst (min_eval_ g)) = true /\
     F32.leb worst (snd (min_eval_ g)) = true) /\
    (style = true -> game_result_ g = WHITE_WON ->
     F32.leb (snd (fst (max_eval_ g))) worst = true /\
     F32.leb (snd (max_eval_ g)) worst = true) /\
    (style = true -> game_result_ g = BLACK_WON ->
     F32.leb (snd (fst (max_eval_ g))) worst = true /\
     F32.leb (fst (fst (max_eval_ g))) worst = true) /\
    (style = true -> game_result_ g <> WHITE_WON -> game_result_ g <> BLACK_WON ->
     F32.leb (snd (max_eval_ g)) worst = true /\
     F32.leb (fst (fst (max_eval_ g))) worst = true) /\
    (forall (abort_signal : nat -> bool) (white_threads black_threads : Z)
            (training enable_resign : bool) (fuel walk turns : nat)
            (g0 : SelfPlayGame),
        min_eval_ g0 = (F32.one, F32.one) ->
        max_eval_ g0 = (F32.zero, F32.zero, F32.zero) ->
        Play abort_signal white_threads black_threads training enable_resign
             fuel walk turns g0 = Some g ->
        (style = false -> F32.leb worst F32.one = true) /\
        (style = true -> F32.leb F32.zero worst = true)).
Proof.
  intros g Hnum worst style.
  assert (Hmin : forall a b, F32.is_nan a = false -> F32.is_nan b = false ->
                   F32.leb (F32.min a b) a = true /\ F32.leb (F32.min a b) b = true).
  { intros a b Ha Hb. unfold F32.min. destruct (F32.ltb b a) eqn:Hlt.
    - split; [now apply F32Facts.ltb_leb|now apply F32_leb_refl].
    - split; [now apply F32_leb_refl|].
      destruct (F32.leb a b) eqn:Hle; [reflexivity|].
      rewrite (F32Facts.leb_false_ltb a b Ha Hb Hle) in Hlt. discriminate Hlt. }
  assert (Hmax : forall a b, F32.is_nan a = false -> F32.is_nan b = false ->
                   F32.leb a (F32.max a b) = true /\ F32.leb b (F32.max a b) = true).
  { intros a b Ha Hb. unfold F32.max. destruct (F32.ltb a b) eqn:Hlt.
    - split; [now apply F32Facts.ltb_leb|now apply F32_leb_refl].
    - split; [now apply F32_leb_refl|].
      destruct (F32.leb b a) eqn:Hle; [reflexivity|].
      rewrite (F32Facts.leb_false_ltb b a Hb Ha Hle) in Hlt. discriminate Hlt. }
  destruct Hnum as (H1 & H2 & H3 & H4 & H5).
  assert (Hstatic :
    (style = false -> game_result_ g = WHITE_WON -> worst = fst (min_eval_ g)) /\
    (style = false -> game_result_ g = BLACK_WON -> worst = snd (min_eval_ g)) /\
    (style = false -> game_result_ g <> WHITE_WON -> game_result_ g <> BLACK_WON ->
     F32.leb worst (fst (min_eval_ g)) = true /\
     F32.leb worst (snd (min_eval_ g)) = true) /\
    (style = true -> game_result_ g = WHITE_WON ->
     F32.leb (snd (fst (max_eval_ g))) worst = true /\
     F32.leb (snd (max_eval_ g)) worst = true) /\
    (style = true -> game_result_ g = BLACK_WON ->
     F32.leb (snd (fst (max_eval_ g))) worst = true /\
     F32.leb (fst (fst (max_eval_ g))) worst = true) /\
    (style = true -> game_result_ g <> WHITE_WON -> game_result_ g <> BLACK_WON ->
     F32.leb (snd (max_eval_ g)) worst = true /\
     F32.leb (fst (fst (max_eval_ g))) worst = true)).
  { unfold worst, style, GetWorstEvalForWinnerOrDraw.
    destruct (max_eval_ g) as [[x y] z]. simpl in H3, H4, H5. simpl fst; simpl snd.
    destruct (ResignWDLStyle (option_of g 0)), (game_result_ g);
      repeat split; intros; try congruence; try discriminate;
      try (apply Hmin; assumption); try (apply Hmax; assumption). }
  destruct Hstatic as (S1 & S2 & S3 & S4 & S5 & S6).
  repeat (split; [assumption|]).
  intros sig wt bt tr er fuel walk turns g0 Hmn0 Hmx0 Hplay.
  assert (Hn0 : extremes_are_numbers g0).
  { unfold extremes_are_numbers. rewrite Hmn0, Hmx0. repeat split. }
  destruct (Play_widens_extremes _ _ _ _ _ _ _ _ _ _ Hn0 Hplay)
    as (_ & W1 & W2 & W3 & W4 & W5).
  rewrite Hmn0, Hmx0 in *. simpl in W1, W2, W3, W4, W5.
  split; intros Hstyle.
  - destruct (game_result_ g) eqn:Hr.
    + apply (F32Facts.leb_trans _ _ _
               (proj1 (S3 Hstyle ltac:(discriminate) ltac:(discriminate))) W1).
    + rewrite (S2 Hstyle eq_refl). exact W2.
    + apply (F32Facts.leb_trans _ _ _
               (proj1 (S3 Hstyle ltac:(discriminate) ltac:(discriminate))) W1).
    + rewrite (S1 Hstyle eq_refl). exact W1.
  - destruct (game_result_ g) eqn:Hr.
    + apply (F32Facts.leb_trans _ _ _ W5
               (proj1 (S6 Hstyle ltac:(discriminate) ltac:(discriminate)))).
    + apply (F32Facts.leb_trans _ _ _ W4 (proj1 (S5 Hstyle eq_refl))).
    + apply (F32Facts.leb_trans _ _ _ W5
               (proj1 (S6 Hstyle ltac:(discriminate) ltac:(discriminate)))).
    + apply (F32Facts.leb_trans _ _ _ W4 (proj1 (S4 Hstyle eq_refl))).
Qed.

End Extremes.

Lemma Play_widens_extremes_witness :
  let o := mkPlayerOptions false F32.zero false 0 20 false Toy.limits in
  let g := SelfPlayGame_new o o true (mkOpening false []) in
  exists g',
    Play Toy.never 1 1 true false 5 10 20 g = Some g' /\
    extremes_are_numbers g' /\ extremes_widened g g' /\
    fst (min_eval_ g') = F32.of_ratio 98 100.
Proof.
  intros o g.
  destruct (Play Toy.never 1 1 true false 5 10 20 g) as [g'|] eqn:Hplay;
    [|vm_compute in Hplay; discriminate Hplay].
  exists g'. split; [reflexivity|].
  assert (Hn : extremes_are_numbers g) by (repeat split).
  destruct (Play_widens_extremes _ _ _ _ _ _ _ _ _ _ Hn Hplay) as [Hn' Hw].
  split; [exact Hn'|]. split; [exact Hw|].
  assert (Hg : Some g' = Play Toy.never 1 1 true false 5 10 20 g)
    by (symmetry; exact Hplay).
  vm_compute in Hg. injection Hg as ->. vm_compute. reflexivity.
Defined.

Lemma GetWorstEvalForWinnerOrDraw_bounds_witness :
  let o := mkPlayerOptions false F32.zero false 0 20 false Toy.limits in
  let g := SelfPlayGame_new o o true (mkOpening false []) in
  exists g',
    Play Toy.never 1 1 true false 5 10 20 g = Some g' /\
    game_result_ g' = DRAW /\
    F32.leb (GetWorstEvalForWinnerOrDraw g') F32.one = true.
Proof.
  intros o g.
  destruct (Play Toy.never 1 1 true false 5 10 20 g) as [g'|] eqn:Hplay;
    [|vm_compute in Hplay; discriminate Hplay].
  exists g'. split; [reflexivity|].
  assert (Hn : extremes_are_numbers g) by (repeat split).
  destruct (Play_widens_extremes _ _ _ _ _ _ _ _ _ _ Hn Hplay) as [Hn' _].
  pose proof (GetWorstEvalForWinnerOrDraw_bounds g' Hn')
    as (_ & _ & _ & _ & _ & _ & Hrun).
  destruct (Hrun _ _ _ _ _ _ _ _ g eq_refl eq_refl Hplay) as [Habs _].
  assert (Hg : Some g' = Play Toy.never 1 1 true false 5 10 20 g)
    by (symmetry; exact Hplay).
  split.
  - vm_compute in Hg. injection Hg as ->. reflexivity.
  - apply Habs. vm_compute in Hg. injection Hg as ->. reflexivity.
Defined.

(** ** The batch value driver *)

Section BatchFacts.
Context {CH : Chess} {TR : Tree} {NW : Network}.

(** *** The constructor, lines 72-87 *)

Lemma ValueSelfPlayGames_new_fold (openings : list Opening) :
  forall ts rs,
    fold_left
      (fun (acc : list NodeTree * list GameResult) (opening : Opening) =>
         let tree := ResetToPosition (start_fen opening) in
         let tree := fold_left MakeMove (moves opening) tree in
         (fst acc ++ [tree], snd acc ++ [UNDECIDED])) openings (ts, rs)
    = (ts ++ map (fun o => fold_left MakeMove (moves o)
                             (ResetToPosition (start_fen o))) openings,
       rs ++ map (fun _ => UNDECIDED) openings).
Proof.
  induction openings as [|o os IH]; intros ts rs; simpl.
  - now rewrite !app_nil_r.
  - rewrite IH. now rewrite <- !app_assoc.
Qed.

(** *** Lengths *)

Lemma scan_game_length tb trees s i :
  length (scan_results (scan_game tb trees s i)) = length (scan_results s).
Proof.
  unfold scan_game, note_pending.
  destruct (trees !! i) as [tree|]; [|reflexivity].
  destruct (scan_results s !! i) as [r|]; [|reflexivity].
  destruct (is_undecided r); [|reflexivity].
  destruct (negb _); simpl; [apply length_insert|].
  destruct tb as [tb|]; [|destruct (scan_all_done s); reflexivity].
  destruct (tb_applicable tb tree); [|destruct (scan_all_done s); reflexivity].
  destruct (probe_wdl tb _) as [wdl state].
  destruct (negb _); simpl; [apply length_insert|].
  destruct (scan_all_done s); reflexivity.
Qed.

Lemma scan_fold_length tb trees l :
  forall s, length (scan_results (fold_left (scan_game tb trees) l s))
            = length (scan_results s).
Proof.
  induction l as [|i l IH]; intros s; simpl; [reflexivity|].
  rewrite IH. apply scan_game_length.
Qed.

Lemma expand_game_length idx bm results s i :
  length (fst (expand_game idx bm results s i)) = length (fst s).
Proof.
  unfold expand_game. destruct s as [trees inputs].
  destruct (trees !! i) as [tree|]; [|reflexivity].
  destruct (results !! i) as [r|]; [|reflexivity].
  destruct (in_wave bm tree r); [|reflexivity].
  destruct (submit_children _ _ _ _ _) as [h inputs']. simpl.
  apply length_insert.
Qed.

Lemma expand_fold_length idx bm results l :
  forall s, length (fst (fold_left (expand_game idx bm results) l s))
            = length (fst s).
Proof.
  induction l as [|i l IH]; intros s; simpl; [reflexivity|].
  rewrite IH. apply expand_game_length.
Qed.

Lemma advance_game_length qval bm results s i :
  length (adv_trees (advance_game qval bm results s i)) = length (adv_trees s).
Proof.
  unfold advance_game.
  destruct (adv_trees s !! i) as [tree|]; [|reflexivity].
  destruct (results !! i) as [r|]; [|reflexivity].
  destruct (in_wave bm tree r); [|reflexivity].
  simpl. apply length_insert.
Qed.

Lemma advance_fold_length qval bm results l :
  forall s, length (adv_trees (fold_left (advance_game qval bm results) l s))
            = length (adv_trees s).
Proof.
  induction l as [|i l IH]; intros s; simpl; [reflexivity|].
  rewrite IH. apply advance_game_length.
Qed.

Lemma Wave_lengths sig g c :
  Wave sig g = c ->
  let g' := match c with Break g' | Continue g' => g' end in
  length (trees_ g') = length (trees_ g) /\
  length (results_ g') = length (results_ g) /\
  syzygy_tb_ g' = syzygy_tb_ g.
Proof.
  intros <-. unfold Wave.
  destruct (poll_abort sig (vabort_ g)) as [a f]. destruct a; simpl.
  { repeat split. }
  destruct (scan_all_done _) eqn:Hdone; simpl.
  { split; [reflexivity|]. split; [|reflexivity].
    unfold scan_games. now rewrite scan_fold_length. }
  destruct (expand_games _ _ _ _) as [trees inputs] eqn:Hex. simpl.
  split; [|split; [|reflexivity]].
  - unfold advance_games. rewrite advance_fold_length. simpl.
    unfold expand_games in Hex.
    pose proof (expand_fold_length
                  (if scan_blacks_move (scan_games (syzygy_tb_ g) (trees_ g) (results_ g))
                   then 1%nat else 0%nat)
                  (scan_blacks_move (scan_games (syzygy_tb_ g) (trees_ g) (results_ g)))
                  (scan_results (scan_games (syzygy_tb_ g) (trees_ g) (results_ g)))
                  (seq 0 (length (trees_ g))) (trees_ g, [])) as Hl.
    rewrite Hex in Hl. exact Hl.
  - unfold scan_games. now rewrite scan_fold_length.
Qed.

(** The driver starts with one tree per opening, holding the opening's
    position after its moves, and one undecided result per tree; the two
    vectors keep that common length through every wave of [Play]. *)
Theorem ValueSelfPlayGames_vectors :
  forall (openings : list Opening) (syzygy_tb : option SyzygyTablebase),
    let g := ValueSelfPlayGames_new openings syzygy_tb in
    trees_ g = map (fun o => fold_left MakeMove (moves o)
                               (ResetToPosition (start_fen o))) openings /\
    results_ g = map (fun _ => UNDECIDED) openings /\
    syzygy_tb_ g = syzygy_tb /\ vevents g = [] /\
    forall (abort_signal : nat -> bool) (fuel : nat) (g' : ValueSelfPlayGames),
      ValuePlay abort_signal fuel g = Some g' ->
      length (trees_ g') = length openings /\
      length (results_ g') = length openings.
Proof.
  intros openings tb g. unfold g, ValueSelfPlayGames_new.
  rewrite ValueSelfPlayGames_new_fold. simpl.
  repeat split.
  - assert (Hgen : forall fuel g0 g',
               ValuePlay abort_signal fuel g0 = Some g' ->
               length (trees_ g') = length (trees_ g0) /\
               length (results_ g') = length (results_ g0)).
    { clear. induction fuel as [|fuel IH]; intros g0 g' H; [discriminate|].
      simpl in H. destruct (Wave abort_signal g0) as [g1|g1] eqn:Hw.
      - injection H as <-. pose proof (Wave_lengths _ _ _ Hw) as (H1 & H2 & _).
        now split.
      - pose proof (Wave_lengths _ _ _ Hw) as (H1 & H2 & _). simpl in H1, H2.
        destruct (IH _ _ H) as [H3 H4]. split; congruence. }
    apply Hgen in H. destruct H as [H _]. simpl in H.
    now rewrite H, length_map.
  - assert (Hgen : forall fuel g0 g',
               ValuePlay abort_signal fuel g0 = Some g' ->
               length (results_ g') = length (results_ g0)).
    { clear. induction fuel as [|fuel IH]; intros g0 g' H; [discriminate|].
      simpl in H. destruct (Wave abort_signal g0) as [g1|g1] eqn:Hw.
      - injection H as <-. now pose proof (Wave_lengths _ _ _ Hw) as (_ & H2 & _).
      - pose proof (Wave_lengths _ _ _ Hw) as (_ & H2 & _). simpl in H2.
        rewrite (IH _ _ H). exact H2. }
    apply Hgen in H. simpl in H. now rewrite H, length_map.
Qed.

End BatchFacts.

Lemma ValueSelfPlayGames_vectors_witness :
  let openings := [mkOpening false []; mkOpening true []; mkOpening false [1; -2; 1]] in
  let g := ValueSelfPlayGames_new openings (Some Toy.tablebase) in
  exists g',
    ValuePlay Toy.never 20 g = Some g' /\
    length (trees_ g') = 3%nat /\ length (results_ g') = 3%nat.
Proof.
  intros openings g.
  destruct (ValuePlay Toy.never 20 g) as [g'|] eqn:Hplay;
    [|vm_compute in Hplay; discriminate Hplay].
  exists g'. split; [reflexivity|].
  pose proof (ValueSelfPlayGames_vectors openings (Some Toy.tablebase))
    as (_ & _ & _ & _ & Hlen).
  apply (Hlen Toy.never 20%nat g' Hplay).
Defined.

(** *** The first pass, game by game *)

Section ScanFacts.
Context {CH : Chess} {TR : Tree} {NW : Network}.

Lemma scan_game_missing tb trees s i :
  trees !! i = None \/ scan_results s !! i = None ->
  scan_game tb trees s i = s.
Proof.
  unfold scan_game. intros [H|H].
  - now rewrite H.
  - rewrite H. now destruct (trees !! i).
Qed.

Lemma scan_one_pending tb tree :
  snd (scan_one tb tree) = true -> fst (fst (scan_one tb tree)) = UNDECIDED.
Proof.
  unfold scan_one. destruct (negb _); [discriminate|].
  destruct tb as [tb|]; [|reflexivity].
  destruct (tb_applicable tb tree); [|reflexivity].
  destruct (probe_wdl tb _) as [wdl state].
  destruct (negb _); [discriminate|reflexivity].
Qed.

(** The body of the first loop in terms of [scan_one]. *)
Lemma scan_game_fields tb trees s i tree r :
  trees !! i = Some tree -> scan_results s !! i = Some r ->
  let u := is_undecided r in
  scan_results (scan_game tb trees s i)
    = <[i := if u then fst (fst (scan_one tb tree)) else r]> (scan_results s) /\
  scan_all_done (scan_game tb trees s i)
    = scan_all_done s && negb (u && snd (scan_one tb tree)) /\
  scan_blacks_move (scan_game tb trees s i)
    = (if scan_all_done s && (u && snd (scan_one tb tree))
       then ply_is_odd tree else scan_blacks_move s) /\
  scan_probes (scan_game tb trees s i)
    = scan_probes s ++ (if u && snd (fst (scan_one tb tree)) then [i] else []).
Proof.
  intros Ht Hr u. unfold scan_game, scan_one, note_pending. rewrite Ht, Hr.
  subst u. destruct (is_undecided r) eqn:Hu; cbn [andb].
  2:{ rewrite (list_insert_id _ _ _ Hr), andb_true_r, andb_false_r, app_nil_r.
      repeat split. }
  apply is_undecided_true in Hu. subst r.
  destruct (negb (is_undecided _)); cbn [fst snd negb andb].
  { rewrite andb_true_r, andb_false_r, app_nil_r. simpl. repeat split. }
  assert (Hid : <[i := UNDECIDED]> (scan_results s) = scan_results s)
    by (apply list_insert_id, Hr).
  destruct tb as [tb|].
  2:{ cbn [fst snd negb]. rewrite Hid, app_nil_r, andb_false_r, andb_true_r.
      destruct (scan_all_done s) eqn:Hd; simpl; rewrite ?Hd; repeat split. }
  destruct (tb_applicable tb tree).
  2:{ cbn [fst snd negb]. rewrite Hid, app_nil_r, andb_false_r, andb_true_r.
      destruct (scan_all_done s) eqn:Hd; simpl; rewrite ?Hd; repeat split. }
  destruct (probe_wdl tb _) as [wdl state].
  destruct (negb (ProbeState_is_fail state)); cbn [fst snd negb scan_results
    scan_all_done scan_blacks_move scan_probes].
  - rewrite andb_true_r, andb_false_r. repeat split.
  - rewrite Hid, andb_false_r, andb_true_r.
    destruct (scan_all_done s) eqn:Hd; simpl; rewrite ?Hd; repeat split.
Qed.

Lemma find_app_first {A : Type} (f : A -> bool) (l l' : list A) :
  List.find f (l ++ l') =
    match List.find f l with Some x => Some x | None => List.find f l' end.
Proof.
  induction l as [|x l IH]; simpl; [reflexivity|].
  destruct (f x); [reflexivity|exact IH].
Qed.

(** The state of the first loop after the games of [l], each once. *)
Lemma scan_fold_spec tb trees results l :
  NoDup l ->
  let s := fold_left (scan_game tb trees) l (mkScan results true false []) in
  (forall j, j ∉ l -> scan_results s !! j = results !! j) /\
  (forall j tree r,
      j ∈ l -> trees !! j = Some tree -> results !! j = Some r ->
      scan_results s !! j
        = Some (if is_undecided r then fst (fst (scan_one tb tree)) else r)) /\
  scan_all_done s = forallb (fun j => negb (pending tb trees results j)) l /\
  scan_blacks_move s
    = match List.find (pending tb trees results) l with
      | Some j => match trees !! j with
                  | Some tree => ply_is_odd tree
                  | None => false
                  end
      | None => false
      end /\
  scan_probes s
    = List.filter
        (fun j => match trees !! j, results !! j with
                  | Some tree, Some r => is_undecided r && snd (fst (scan_one tb tree))
                  | _, _ => false
                  end) l.
Proof.
  induction l as [|i l IH] using rev_ind; intros Hnd.
  - simpl. repeat split; auto. intros j tree r Hj. now apply elem_of_nil in Hj.
  - apply NoDup_app in Hnd as (Hnd & Hdisj & _).
    assert (Hi : i ∉ l).
    { intros Hin. apply (Hdisj i Hin). apply list_elem_of_singleton. reflexivity. }
    specialize (IH Hnd). cbv zeta in IH.
    destruct IH as (Hout & Hin & Hdone & Hbm & Hpr).
    cbv zeta. rewrite fold_left_app. simpl.
    set (s := fold_left (scan_game tb trees) l (mkScan results true false [])) in *.
    rewrite List.forallb_app, find_app_first, List.filter_app. simpl.
    assert (Hsi : scan_results s !! i = results !! i) by (apply Hout, Hi).
    destruct (trees !! i) as [tree|] eqn:Hti.
    2:{ rewrite (scan_game_missing tb trees s i (or_introl Hti)).
        assert (Hp : pending tb trees results i = false)
          by (unfold pending; now rewrite Hti).
        rewrite Hp, ?Hti. simpl. rewrite andb_true_r, app_nil_r.
        split; [|split; [|split; [|split]]].
        - intros j Hj. apply Hout. intros Hjl. apply Hj.
          apply elem_of_app. now left.
        - intros j tr r Hj Htj Hrj.
          apply elem_of_app in Hj as [Hj|Hj]; [now apply Hin|].
          apply list_elem_of_singleton in Hj. subst j. congruence.
        - exact Hdone.
        - rewrite Hbm. now destruct (List.find _ l).
        - exact Hpr. }
    destruct (results !! i) as [r|] eqn:Hri.
    2:{ rewrite (scan_game_missing tb trees s i (or_intror Hsi)).
        assert (Hp : pending tb trees results i = false)
          by (unfold pending; now rewrite Hti, Hri).
        rewrite Hp, ?Hti. simpl. rewrite andb_true_r, app_nil_r.
        split; [|split; [|split; [|split]]].
        - intros j Hj. apply Hout. intros Hjl. apply Hj.
          apply elem_of_app. now left.
        - intros j tr r Hj Htj Hrj.
          apply elem_of_app in Hj as [Hj|Hj]; [now apply Hin|].
          apply list_elem_of_singleton in Hj. subst j. congruence.
        - exact Hdone.
        - rewrite Hbm. now destruct (List.find _ l).
        - exact Hpr. }
    destruct (scan_game_fields tb trees s i tree r Hti Hsi) as (Fr & Fd & Fb & Fp).
    rewrite Fr, Fd, Fb, Fp.
    assert (Hp : pending tb trees results i
                 = is_undecided r && snd (scan_one tb tree))
      by (unfold pending; now rewrite Hti, Hri).
    rewrite Hp, ?Hti.
    assert (Hlt : (i < length (scan_results s))%nat).
    { apply lookup_lt_is_Some. rewrite Hsi. eauto. }
    split; [|split; [|split; [|split]]].
    + intros j Hj.
      assert (j <> i).
      { intros ->. apply Hj, elem_of_app. right. apply list_elem_of_singleton. reflexivity. }
      rewrite list_lookup_insert_ne by congruence.
      apply Hout. intros Hjl. apply Hj, elem_of_app. now left.
    + intros j tr r' Hj Htj Hrj.
      apply elem_of_app in Hj as [Hj|Hj].
      * assert (j <> i) by (intros ->; contradiction).
        rewrite list_lookup_insert_ne by congruence. now apply Hin.
      * apply list_elem_of_singleton in Hj. subst j.
        rewrite list_lookup_insert_eq by exact Hlt.
        rewrite Hti in Htj. rewrite Hri in Hrj.
        injection Htj as <-. injection Hrj as <-. reflexivity.
    + rewrite Hdone. simpl. now rewrite andb_true_r.
    + rewrite Hdone, Hbm.
      destruct (List.find (pending tb trees results) l) as [j|] eqn:Hfind.
      * apply find_some in Hfind as [Hjl Hpj].
        assert (Hfa : forallb (fun j => negb (pending tb trees results j)) l = false).
        { apply not_true_is_false. intros Hall.
          rewrite forallb_forall in Hall. specialize (Hall j Hjl).
          rewrite Hpj in Hall. discriminate Hall. }
        rewrite Hfa. reflexivity.
      * assert (Hfa : forallb (fun j => negb (pending tb trees results j)) l = true).
        { apply forallb_forall. intros j Hjl.
          apply (find_none _ _ Hfind) in Hjl. now rewrite Hjl. }
        rewrite Hfa. cbn [andb].
        destruct (is_undecided r && snd (scan_one tb tree)); [|reflexivity].
        now rewrite Hti.
    + rewrite Hpr. reflexivity.
Qed.

End ScanFacts.
